(** * Earnings-call scraper: a shallow embedding of full_earnings_scraper.py

    The development follows the source file top to bottom:

    - [PyStr]: the Python string primitives the scraper relies on
      ([str.lower], the [in] operator on strings, [re.search] for the two
      fixed patterns, [int] on a decimal string);
    - [Db]: the [earnings_calls] table and [EarningsDatabase];
    - [Scraper]: [FullEarningsScraper._analyze_link], [_scrape_page] and
      [_find_event_pages], written in a small state-and-exception monad over
      an explicit world (HTTP session and wall clock);
    - the process around them: [scrape_company] and [main], over the world,
      the database file and the time spent sleeping.

    Python [str] values are modelled by [string], one [ascii] per code point,
    that is, texts whose code points lie in U+0000..U+00FF. *)

From Stdlib Require Import String Ascii List ZArith NArith Bool Arith Lia.
From Stdlib Require Import Permutation.
Import ListNotations.

Local Open Scope string_scope.

(* ===================================================================== *)
(** ** Python string primitives *)
(* ===================================================================== *)

Module PyStr.

(** [str.lower] on one code point below 256: A-Z and the Latin-1 capitals
    U+00C0..U+00DE (the multiplication sign U+00D7 apart) move up by 32,
    everything else is left alone. *)
Definition lower_char (c : ascii) : ascii :=
  let n := N_of_ascii c in
  if ((65 <=? n) && (n <=? 90))%N
     || ((192 <=? n) && (n <=? 222) && negb (n =? 215))%N
  then ascii_of_N (n + 32)
  else c.

(** [s.lower()] *)
Fixpoint lower (s : string) : string :=
  match s with
  | EmptyString => EmptyString
  | String c t => String (lower_char c) (lower t)
  end.

(** [s.startswith(p)] *)
Fixpoint startswith (p s : string) : bool :=
  match p, s with
  | EmptyString, _ => true
  | String _ _, EmptyString => false
  | String a p', String b s' => Ascii.eqb a b && startswith p' s'
  end.

(** [sub in s]: [sub] occurs in [s] at some offset. *)
Fixpoint contains (sub s : string) {struct s} : bool :=
  if startswith sub s then true
  else match s with
       | EmptyString => false
       | String _ t => contains sub t
       end.

(** [any(x in s for x in subs)] *)
Definition any_in (subs : list string) (s : string) : bool :=
  existsb (fun x => contains x s) subs.

(** [re.search(p, s)] for a pattern [p] given by its anchored matcher [m]:
    the offsets of [s] are tried from left to right and the first one at
    which the pattern matches wins. *)
Fixpoint re_search {A : Type} (m : string -> option A) (s : string)
  {struct s} : option A :=
  match m s with
  | Some g => Some g
  | None => match s with
            | EmptyString => None
            | String _ t => re_search m t
            end
  end.

(** The character class [[1-4]]. *)
Definition is_1_4 (c : ascii) : bool :=
  let n := N_of_ascii c in ((49 <=? n) && (n <=? 52))%N.

(** The character class [\d] (below U+0100 the only decimal digits are
    0-9). *)
Definition isdigit (c : ascii) : bool :=
  let n := N_of_ascii c in ((48 <=? n) && (n <=? 57))%N.

(** The pattern [q([1-4])] anchored at the head of [s]; the result is
    group 1. *)
Definition match_quarter (s : string) : option string :=
  match s with
  | String c (String d _) =>
      if Ascii.eqb c "q" && is_1_4 d then Some (String d EmptyString)
      else None
  | _ => None
  end.

(** The pattern [(20\d{2})] anchored at the head of [s]; the result is
    group 1. *)
Definition match_year (s : string) : option string :=
  match s with
  | String a (String b (String c (String d _))) =>
      if Ascii.eqb a "2" && Ascii.eqb b "0" && isdigit c && isdigit d
      then Some (String a (String b (String c (String d EmptyString))))
      else None
  | _ => None
  end.

(** Value of one decimal digit. *)
Definition digit_value (c : ascii) : option Z :=
  if isdigit c then Some (Z.of_N (N_of_ascii c) - 48)%Z else None.

Fixpoint int_from (acc : Z) (s : string) : option Z :=
  match s with
  | EmptyString => Some acc
  | String c t =>
      match digit_value c with
      | Some v => int_from (10 * acc + v)%Z t
      | None => None
      end
  end.

(** [int(s)] on a non-empty run of decimal digits, the only shape the
    scraper passes to it.  [None] covers every other argument; the caller
    turns it into [ValueError]. *)
Definition int (s : string) : option Z :=
  match s with
  | EmptyString => None
  | _ => int_from 0%Z s
  end.

(** Specification-side vocabulary: [sub] occurs somewhere in [s]. *)
Definition substring_of (sub s : string) : Prop :=
  exists pre post, s = pre ++ sub ++ post.

End PyStr.

(* ===================================================================== *)
(** ** The record *)
(* ===================================================================== *)

(** [@dataclass class EarningsCall] *)
Record EarningsCall : Type := mkEarningsCall {
  ticker : string;
  company : string;
  title : string;
  url : string;
  call_type : string;
  quarter : string;
  year : Z;
  found_on_page : string;
  discovered_at : string
}.

(* ===================================================================== *)
(** ** EarningsDatabase *)
(* ===================================================================== *)

Module Db.

(** One row of [earnings_calls]: the surrogate key [id INTEGER PRIMARY KEY]
    and the nine data columns, which are the fields of the dataclass in the
    same order. *)
Record Row : Type := mkRow {
  id : Z;
  data : EarningsCall
}.

(** The table, in rowid order. *)
Definition Table : Type := list Row.

(** [init_db]: [CREATE TABLE IF NOT EXISTS] keeps a table that is already
    in the database file and creates an empty one otherwise. *)
Definition init_db (on_disk : option Table) : Table :=
  match on_disk with
  | Some t => t
  | None => []
  end.

(** Largest rowid in use, 0 for the empty table. *)
Definition max_id (t : Table) : Z :=
  fold_right (fun r m => Z.max (id r) m) 0%Z t.

(** The row carries the url [u]. *)
Definition has_url (u : string) (r : Row) : bool :=
  String.eqb (url (data r)) u.

(** [INSERT OR REPLACE INTO earnings_calls (nine columns) VALUES (...)]:
    no [id] is given, so the new row takes the next rowid; every row that
    would violate [url UNIQUE] is deleted; the new row is added. *)
Definition insert_or_replace (t : Table) (c : EarningsCall) : Table :=
  let new_id := (max_id t + 1)%Z in
  (filter (fun r => negb (has_url (url c) r)) t
     ++ [ {| id := new_id; data := c |} ])%list.

(** What [cursor.execute] / [conn.commit] did inside the [try]. *)
Inductive sqlite_outcome : Type :=
| Committed
| SqliteError.

(** [save_call]: the statement is committed, or an exception is caught and
    reported and the connection is closed with nothing written. *)
Definition save_call (o : sqlite_outcome) (t : Table) (c : EarningsCall)
  : Table :=
  match o with
  | Committed => insert_or_replace t c
  | SqliteError => t
  end.

(** One more row for ticker [k] in the running [GROUP BY] tally. *)
Fixpoint bump (k : string) (acc : list (string * nat))
  : list (string * nat) :=
  match acc with
  | [] => [(k, 1)]
  | (k', n) :: rest =>
      if String.eqb k' k then (k', S n) :: rest
      else (k', n) :: bump k rest
  end.

(** [SELECT ticker, COUNT( * ) FROM earnings_calls GROUP BY ticker]: one
    pair per distinct ticker (SQL leaves the order of the groups open; here
    it is the order of first appearance). *)
Definition group_by_ticker (t : Table) : list (string * nat) :=
  fold_left (fun acc r => bump (ticker (data r)) acc) t [].

(** The dictionary [get_stats] returns. *)
Record Stats : Type := mkStats {
  total : nat;
  by_company : list (string * nat)
}.

(** [get_stats] *)
Definition get_stats (t : Table) : Stats :=
  {| total := List.length t;
     by_company := group_by_ticker t |}.

(** A run of [save_call]s, each with the outcome of its statement. *)
Definition save_all (t : Table) (saves : list (sqlite_outcome * EarningsCall))
  : Table :=
  fold_left (fun acc oc => save_call (fst oc) acc (snd oc)) saves t.

(** Rows stored under url [u]. *)
Definition rows_with_url (u : string) (t : Table) : list Row :=
  filter (has_url u) t.

(** Sum of the counts of a [GROUP BY] result. *)
Definition sum_counts (g : list (string * nat)) : nat :=
  fold_right (fun kn acc => snd kn + acc) 0 g.

End Db.

(* ===================================================================== *)
(** ** The world the scraper runs in, and its monad *)
(* ===================================================================== *)

(** Exceptions that cross the modelled code: those of [requests], the
    [ValueError] of [int] and of [urllib.parse], [sqlite3.OperationalError]
    and [OSError]. *)
Inductive exn : Type :=
| ConnectionError
| ReadTimeout
| ValueError
| OperationalError
| OSError.

(** What [requests.Session.get] comes back with: a response (only
    [status_code] and [content] are read) or an exception. *)
Inductive http_result : Type :=
| Reply (status_code : Z) (content : string)
| Failure (e : exn).

(** What [datetime.now()] shows: the scraper reads [.year] and
    [.isoformat()]. *)
Record datetime : Type := mkDatetime {
  dt_year : Z;
  isoformat : string
}.

(** The outside world: [server n u t] is the fate of the request number [n]
    of the run when it goes to [u] with timeout [t]; [requests] logs the
    requests issued so far; [clock n] is what reading number [n] of the wall
    clock shows. *)
Record World : Type := mkWorld {
  server : nat -> string -> Z -> http_result;
  requests : list (string * Z);
  clock : nat -> datetime;
  clock_reads : nat
}.

(** A Python call either returns or raises. *)
Inductive outcome (A : Type) : Type :=
| Ok (a : A)
| Raised (e : exn).
Arguments Ok {A} a.
Arguments Raised {A} e.

Definition M (A : Type) : Type := World -> outcome A * World.

Definition ret {A : Type} (a : A) : M A := fun w => (Ok a, w).

Definition raise {A : Type} (e : exn) : M A := fun w => (Raised e, w).

Definition bind {A B : Type} (c : M A) (k : A -> M B) : M B :=
  fun w =>
    match c w with
    | (Ok a, w') => k a w'
    | (Raised e, w') => (Raised e, w')
    end.

(** [try: c  except: h] *)
Definition try_except {A : Type} (c : M A) (h : exn -> M A) : M A :=
  fun w =>
    match c w with
    | (Ok a, w') => (Ok a, w')
    | (Raised e, w') => h e w'
    end.

Declare Scope py_scope.
Delimit Scope py_scope with py.
Notation "x <- c ;; k" := (bind c (fun x => k))
  (at level 61, c at next level, right associativity) : py_scope.

(** The world once the requests [l] have gone out. *)
Definition log_requests (w : World) (l : list (string * Z)) : World :=
  {| server := server w;
     requests := (requests w ++ l)%list;
     clock := clock w;
     clock_reads := clock_reads w |}.

(** [self.session.get(u, timeout=t)]: the request goes out, and comes back
    as the response (its [status_code] and [content]) or as an
    exception. *)
Definition session_get (u : string) (t : Z) : M (Z * string) :=
  fun w =>
    match server w (List.length (requests w)) u t with
    | Reply code body => (Ok (code, body), log_requests w [(u, t)])
    | Failure e => (Raised e, log_requests w [(u, t)])
    end.

(** [datetime.now()] *)
Definition datetime_now : M datetime :=
  fun w =>
    (Ok (clock w (clock_reads w)),
     {| server := server w;
        requests := requests w;
        clock := clock w;
        clock_reads := S (clock_reads w) |}).

(** [int(g)] inside the monad. *)
Definition py_int (g : string) : M Z :=
  match PyStr.int g with
  | Some z => ret z
  | None => raise ValueError
  end.

(** A [urllib.parse] result inside the monad: [None] is its
    [ValueError]. *)
Definition or_value_error {A : Type} (o : option A) : M A :=
  match o with
  | Some a => ret a
  | None => raise ValueError
  end.

(* ===================================================================== *)
(** ** FullEarningsScraper *)
(* ===================================================================== *)

(** The two components of [urlparse(u)] the scraper reads. *)
Record ParseResult : Type := mkParseResult {
  scheme : string;
  netloc : string
}.

(** [earnings_keywords] of [_analyze_link]. *)
Definition earnings_keywords : list string :=
  [ "earnings call"; "quarterly results"; "q1"; "q2"; "q3"; "q4";
    "conference call"; "webcast"; "financial results"; "investor call" ].

Definition audio_exts : list string := [ ".mp3"; ".wav"; ".m4a" ].

Definition video_exts : list string := [ ".mp4"; ".webm" ].

(** The [if / elif / elif] chain that settles [call_type]. *)
Definition determine_call_type (href text_lower : string) : string :=
  if PyStr.any_in audio_exts (PyStr.lower href) then "audio"
  else if PyStr.any_in video_exts (PyStr.lower href) then "video"
  else if PyStr.contains "transcript" text_lower then "transcript"
  else "webcast".

Section Scraper.

(** Library functions the scraper calls and this file does not look into.
    [resolve base url] is [urllib.parse.urljoin(base, url)] for a base and
    a url that are not empty, and [urlparse u] the scheme and the netloc of
    [urllib.parse.urlparse(u)]; [None] stands for the [ValueError] either
    raises on a url it cannot split (a host with an unmatched bracket, as
    in http://[bad).  [find_all_a] is BeautifulSoup's
    [find_all('a', href=True)] read as the list of pairs
    [(link['href'], link.get_text().strip())] in document order.  The
    [print] calls are left out. *)
Variable resolve : string -> string -> option string.
Variable urlparse : string -> option ParseResult.
Variable find_all_a : string -> list (string * string).

Local Open Scope py_scope.

(** [urljoin(base, url)]: the library returns the other argument when one
    is empty, before it splits anything. *)
Definition urljoin (base url : string) : option string :=
  if String.eqb base "" then Some url
  else if String.eqb url "" then Some base
  else resolve base url.

(** [_analyze_link(self, link_element, href, text, page_url, ticker,
    company_name)]; [link_element] is never read. *)
Definition _analyze_link (href text page_url ticker company_name : string)
  : M (option EarningsCall) :=
  let text_lower := PyStr.lower text in
  if negb (PyStr.any_in earnings_keywords text_lower) then ret None
  else
    let quarter_match := PyStr.re_search PyStr.match_quarter text_lower in
    let year_match := PyStr.re_search PyStr.match_year text in
    let quarter :=
      match quarter_match with
      | Some g => "Q" ++ g
      | None => "Unknown"
      end in
    year <- match year_match with
            | Some g => py_int g
            | None => now <- datetime_now ;; ret (dt_year now)
            end ;;
    let call_type := determine_call_type href text_lower in
    full_url <- or_value_error (urljoin page_url href) ;;
    now <- datetime_now ;;
    ret (Some {| ticker := ticker;
                 company := company_name;
                 title := text;
                 url := full_url;
                 call_type := call_type;
                 quarter := quarter;
                 year := year;
                 found_on_page := page_url;
                 discovered_at := isoformat now |}).

(** The [for link in soup.find_all('a', href=True)] loop of
    [_scrape_page]; [calls] is the list built so far. *)
Fixpoint scan_links (links : list (string * string))
  (url ticker company_name : string) (calls : list EarningsCall)
  : M (list EarningsCall) :=
  match links with
  | [] => ret calls
  | (href, text) :: rest =>
      call <- _analyze_link href text url ticker company_name ;;
      scan_links rest url ticker company_name
        match call with
        | Some c => (calls ++ [c])%list
        | None => calls
        end
  end.

(** [_scrape_page(self, url, ticker, company_name)] *)
Definition _scrape_page (url ticker company_name : string)
  : M (list EarningsCall) :=
  response <- session_get url 10 ;;
  if negb (fst response =? 200)%Z then ret []
  else scan_links (find_all_a (snd response)) url ticker company_name [].

(** The [event_urls] list of [_find_event_pages], from the parsed base
    url. *)
Definition event_urls_of (parsed : ParseResult) : list string :=
  let domain := netloc parsed in
  let scheme := scheme parsed in
  [ scheme ++ "://" ++ domain ++ "/events";
    scheme ++ "://" ++ domain ++ "/events-and-presentations";
    scheme ++ "://" ++ domain ++ "/webcasts";
    scheme ++ "://" ++ domain ++ "/earnings";
    scheme ++ "://" ++ domain ++ "/investor-relations/events" ].

(** The candidates guessed for [base_url], if [urlparse] accepts it. *)
Definition event_urls (base_url : string) : option (list string) :=
  option_map event_urls_of (urlparse base_url).

(** One turn of the [for event_url in event_urls] loop: the [try] block
    and its bare [except: continue]. *)
Definition probe_event_url (event_url ticker company_name : string)
  (calls : list EarningsCall) : M (list EarningsCall) :=
  try_except
    (response <- session_get event_url 5 ;;
     if (fst response =? 200)%Z then
       page_calls <- _scrape_page event_url ticker company_name ;;
       ret (calls ++ page_calls)%list
     else ret calls)
    (fun _ => ret calls).

(** The whole loop. *)
Fixpoint probe_event_urls (urls : list string) (ticker company_name : string)
  (calls : list EarningsCall) : M (list EarningsCall) :=
  match urls with
  | [] => ret calls
  | event_url :: rest =>
      calls' <- probe_event_url event_url ticker company_name calls ;;
      probe_event_urls rest ticker company_name calls'
  end.

(** [_find_event_pages(self, base_url, ticker, company_name)]: the two
    [urlparse] calls stand before the loop and outside its [try]. *)
Definition _find_event_pages (base_url ticker company_name : string)
  : M (list EarningsCall) :=
  parsed <- or_value_error (urlparse base_url) ;;
  probe_event_urls (event_urls_of parsed) ticker company_name [].

End Scraper.

(* ===================================================================== *)
(** ** The process around the scraper: database file and sleeping *)
(* ===================================================================== *)

(** What becomes of one [save_call]: [sqlite3.connect] and [conn.cursor()]
    stand before its [try], so either the database cannot be opened and the
    exception leaves [save_call], or it is opened and the statement inside
    the [try] has its outcome. *)
Inductive db_access : Type :=
| Opened (o : Db.sqlite_outcome)
| Unopenable.

(** What the table sees of an access. *)
Definition outcome_of (a : db_access) : Db.sqlite_outcome :=
  match a with
  | Opened o => o
  | Unopenable => Db.SqliteError
  end.

(** What [scrape_company] and [main] act on besides the network and the
    clock: the [earnings_calls] table of the database file, the fate
    [sqlite n] of the [save_call] number [n] of the run, the number of
    [save_call]s so far, and the seconds spent in [time.sleep]. *)
Record Process : Type := mkProcess {
  world : World;
  table : Db.Table;
  sqlite : nat -> db_access;
  saves : nat;
  slept : Z
}.

Definition P (A : Type) : Type := Process -> outcome A * Process.

Definition retP {A : Type} (a : A) : P A := fun p => (Ok a, p).

Definition bindP {A B : Type} (c : P A) (k : A -> P B) : P B :=
  fun p =>
    match c p with
    | (Ok a, p') => k a p'
    | (Raised e, p') => (Raised e, p')
    end.

(** [try: c  except Exception: h] *)
Definition try_exceptP {A : Type} (c : P A) (h : exn -> P A) : P A :=
  fun p =>
    match c p with
    | (Ok a, p') => (Ok a, p')
    | (Raised e, p') => h e p'
    end.

Declare Scope proc_scope.
Delimit Scope proc_scope with proc.
Notation "x <- c ;; k" := (bindP c (fun x => k))
  (at level 61, c at next level, right associativity) : proc_scope.

(** The process once its world has become [w]. *)
Definition with_world (p : Process) (w : World) : Process :=
  {| world := w;
     table := table p;
     sqlite := sqlite p;
     saves := saves p;
     slept := slept p |}.

(** A scraper method run inside the process. *)
Definition lift {A : Type} (c : M A) : P A :=
  fun p => (fst (c (world p)), with_world p (snd (c (world p)))).

(** [time.sleep(secs)] *)
Definition time_sleep (secs : Z) : P unit :=
  fun p =>
    (Ok tt,
     {| world := world p;
        table := table p;
        sqlite := sqlite p;
        saves := saves p;
        slept := (slept p + secs)%Z |}).

(** The process once the [save_call] number [saves p] has met the table
    with outcome [o]. *)
Definition saved (p : Process) (o : Db.sqlite_outcome) (call : EarningsCall)
  : Process :=
  {| world := world p;
     table := Db.save_call o (table p) call;
     sqlite := sqlite p;
     saves := S (saves p);
     slept := slept p |}.

(** [self.db.save_call(call)] *)
Definition db_save_call (call : EarningsCall) : P unit :=
  fun p =>
    match sqlite p (saves p) with
    | Opened o => (Ok tt, saved p o call)
    | Unopenable => (Raised OperationalError, saved p Db.SqliteError call)
    end.

(** The [for call in all_calls: self.db.save_call(call)] loop. *)
Fixpoint save_calls (all_calls : list EarningsCall) : P unit :=
  match all_calls with
  | [] => retP tt
  | call :: rest => bindP (db_save_call call) (fun _ => save_calls rest)
  end.

(** What the files let [main] do outside [save_call], none of it inside a
    [try]: create the table ([init_db], run by [EarningsDatabase()]), read
    the statistics ([get_stats]), read the rows for the export, and write
    the JSON file. *)
Record Disk : Type := mkDisk {
  db_created : bool;
  stats_read : bool;
  rows_read : bool;
  file_written : bool
}.

(** A step that works or raises [e]. *)
Definition unless_raises {A : Type} (works : bool) (e : exn) (c : P A) : P A :=
  if works then c else fun p => (Raised e, p).

Section Company.

Variable resolve : string -> string -> option string.
Variable urlparse : string -> option ParseResult.
Variable find_all_a : string -> list (string * string).

Local Open Scope proc_scope.

(** One turn of the [for url in ir_urls] loop of [scrape_company].  The
    source has one [try] around the three statements and grows [all_calls]
    in place, so an exception leaves the list as the statements before it
    made it; here each handler returns the list as it stands at that
    point. *)
Definition scrape_ir_url (url ticker company_name : string)
  (all_calls : list EarningsCall) : P (list EarningsCall) :=
  try_exceptP
    (calls <- lift (_scrape_page resolve find_all_a url ticker company_name) ;;
     let all_calls := (all_calls ++ calls)%list in
     try_exceptP
       (deeper_calls <- lift (_find_event_pages resolve urlparse find_all_a
                                url ticker company_name) ;;
        let all_calls := (all_calls ++ deeper_calls)%list in
        _ <- time_sleep 1 ;;
        retP all_calls)
       (fun _ => retP all_calls))
    (fun _ => retP all_calls).

(** The whole loop. *)
Fixpoint scrape_ir_urls (ir_urls : list string) (ticker company_name : string)
  (all_calls : list EarningsCall) : P (list EarningsCall) :=
  match ir_urls with
  | [] => retP all_calls
  | url :: rest =>
      all_calls' <- scrape_ir_url url ticker company_name all_calls ;;
      scrape_ir_urls rest ticker company_name all_calls'
  end.

(** [scrape_company(self, ticker, company_name, ir_urls)] *)
Definition scrape_company (ticker company_name : string)
  (ir_urls : list string) : P (list EarningsCall) :=
  all_calls <- scrape_ir_urls ir_urls ticker company_name [] ;;
  _ <- save_calls all_calls ;;
  retP all_calls.

(** One entry of the [companies] list of [main]. *)
Record Company : Type := mkCompany {
  co_ticker : string;
  co_name : string;
  co_urls : list string
}.

(** The [for company in companies] loop of [main]; [total_found] is the
    running sum. *)
Fixpoint scrape_companies (cs : list Company) (total_found : nat) : P nat :=
  match cs with
  | [] => retP total_found
  | c :: rest =>
      calls <- scrape_company (co_ticker c) (co_name c) (co_urls c) ;;
      scrape_companies rest (total_found + List.length calls)
  end.

(** What [main] prints and writes out: the count of calls found, the
    statistics, and the objects dumped as JSON (one per row, the nine data
    columns). *)
Record MainResult : Type := mkMainResult {
  total_found : nat;
  stats : Db.Stats;
  export_data : list EarningsCall
}.

(** [main] once [scraper = FullEarningsScraper()] has returned, given the
    companies to visit: the crawl, [get_stats], the [SELECT] of the export
    and the dump to the JSON file. *)
Definition main_on (cs : list Company) (disk : Disk) : P MainResult :=
  total_found <- scrape_companies cs 0 ;;
  stats <- unless_raises (stats_read disk) OperationalError
             (fun p => (Ok (Db.get_stats (table p)), p)) ;;
  rows <- unless_raises (rows_read disk) OperationalError
            (fun p => (Ok (table p), p)) ;;
  let export_data := map Db.data rows in
  _ <- unless_raises (file_written disk) OSError (retP tt) ;;
  retP {| total_found := total_found;
          stats := stats;
          export_data := export_data |}.

End Company.

(** The [companies] of [main]. *)
Definition companies : list Company :=
  [ {| co_ticker := "AAPL";
       co_name := "Apple Inc.";
       co_urls :=
         [ "https://investor.apple.com/investor-relations/default.aspx";
           "https://investor.apple.com/events-and-presentations/default.aspx" ] |};
    {| co_ticker := "TSLA";
       co_name := "Tesla Inc.";
       co_urls :=
         [ "https://ir.tesla.com/";
           "https://ir.tesla.com/events-and-presentations/events" ] |};
    {| co_ticker := "GOOGL";
       co_name := "Alphabet Inc.";
       co_urls :=
         [ "https://abc.xyz/investor/";
           "https://abc.xyz/investor/events/" ] |};
    {| co_ticker := "MSFT";
       co_name := "Microsoft Corporation";
       co_urls :=
         [ "https://www.microsoft.com/en-us/investor/";
           "https://www.microsoft.com/en-us/Investor/events/default.aspx" ] |} ].

(** The process [main] crawls in: [EarningsDatabase()] has run [init_db]
    on what the database file held, nothing has been saved or slept yet. *)
Definition start (on_disk : option Db.Table) (w : World)
  (sq : nat -> db_access) : Process :=
  {| world := w;
     table := Db.init_db on_disk;
     sqlite := sq;
     saves := 0;
     slept := 0 |}.

(** [main()] *)
Definition main (resolve : string -> string -> option string)
  (urlparse : string -> option ParseResult)
  (find_all_a : string -> list (string * string))
  (on_disk : option Db.Table) (w : World) (sq : nat -> db_access)
  (disk : Disk) : outcome MainResult * Process :=
  unless_raises (db_created disk) OperationalError
    (main_on resolve urlparse find_all_a companies disk)
    (start on_disk w sq).

(* ===================================================================== *)
(** ** Vocabulary of the statements *)
(* ===================================================================== *)

(** [s[n:]] *)
Fixpoint drop (n : nat) (s : string) : string :=
  match n, s with
  | O, _ => s
  | S n', String _ t => drop n' t
  | S _, EmptyString => EmptyString
  end.

(** At offset [i] of [s] stands the letter q followed by the digit [d],
    one of 1, 2, 3, 4. *)
Definition quarter_at (s : string) (i : nat) (d : ascii) : Prop :=
  get i s = Some "q"%char /\ get (S i) s = Some d /\
  In d [ "1"; "2"; "3"; "4" ]%char.

(** The same, with q in either case. *)
Definition quarter_at_ci (s : string) (i : nat) (d : ascii) : Prop :=
  (get i s = Some "q"%char \/ get i s = Some "Q"%char) /\
  get (S i) s = Some d /\ In d [ "1"; "2"; "3"; "4" ]%char.

(** [c] is one of the ten decimal digits. *)
Definition decimal_digit (c : ascii) : Prop :=
  In c [ "0"; "1"; "2"; "3"; "4"; "5"; "6"; "7"; "8"; "9" ]%char.

(** At offset [i] of [s] stands a four-digit number that begins with 20,
    and [y] is its value. *)
Definition year_at (s : string) (i : nat) (y : Z) : Prop :=
  exists c d,
    get i s = Some "2"%char /\ get (1 + i) s = Some "0"%char /\
    get (2 + i) s = Some c /\ get (3 + i) s = Some d /\
    decimal_digit c /\ decimal_digit d /\
    y = (2000 + 10 * (Z.of_N (N_of_ascii c) - 48)
              + (Z.of_N (N_of_ascii d) - 48))%Z.

(** [P i x] holds at [i] and at no smaller offset, for any [x]. *)
Definition first_at {X : Type} (P : nat -> X -> Prop) (i : nat) (x : X)
  : Prop :=
  P i x /\ forall j x', j < i -> ~ P j x'.

(** Some keyword of the list occurs in [s]. *)
Definition some_keyword_in (kws : list string) (s : string) : Prop :=
  exists kw, In kw kws /\ PyStr.substring_of kw s.

(** No two rows share a url. *)
Definition url_unique (t : Db.Table) : Prop :=
  NoDup (map (fun r => url (Db.data r)) t).

(** The count a [GROUP BY] result holds for ticker [k], 0 if [k] has no
    group. *)
Definition count_of (k : string) (g : list (string * nat)) : nat :=
  match find (fun kn => String.eqb (fst kn) k) g with
  | Some kn => snd kn
  | None => 0
  end.

(** Number of rows of ticker [k]. *)
Definition rows_of_ticker (k : string) (t : Db.Table) : nat :=
  List.length (filter (fun r => String.eqb (ticker (Db.data r)) k) t).

(** The request number [n] of the run, to [u] with timeout [t], does not
    come back with status 200: it raises (network error, timeout) or
    carries another status. *)
Definition fetch_fails (w : World) (n : nat) (u : string) (t : Z) : Prop :=
  match server w n u t with
  | Failure _ => True
  | Reply code _ => code <> 200%Z
  end.

(** The anchor [(href, text)] gets through the keyword filter. *)
Definition accepted (link : string * string) : bool :=
  PyStr.any_in earnings_keywords (PyStr.lower (snd link)).

(** The url, if [urljoin] gives one, and the title a record gets from its
    anchor on [page]. *)
Definition link_of (resolve : string -> string -> option string)
  (page : string) (link : string * string) : option string * string :=
  (urljoin resolve page (fst link), snd link).

(** [urljoin] gives the anchor a url on [page]: it does not raise. *)
Definition resolves (resolve : string -> string -> option string)
  (page : string) (link : string * string) : bool :=
  match urljoin resolve page (fst link) with
  | Some _ => true
  | None => false
  end.

(** The url and the title of a record, laid out as [link_of] does. *)
Definition link_in (c : EarningsCall) : option string * string :=
  (Some (url c), title c).

(** The requests of a frontier expansion over [urls], where [scanned]
    tells for each candidate whether the request for the page followed its
    probe. *)
Fixpoint probe_log (urls : list string) (scanned : list bool)
  : list (string * Z) :=
  match urls, scanned with
  | u :: us, b :: bs =>
      ((u, 5%Z) :: (if b then [(u, 10%Z)] else []) ++ probe_log us bs)%list
  | _, _ => []
  end.

(** The record [c] was made on page [page] for the company [tk], [co]. *)
Definition made_on (page tk co : string) (c : EarningsCall) : Prop :=
  found_on_page c = page /\ ticker c = tk /\ company c = co.

(** The request [(u, t)] is a probe of the frontier (timeout 5). *)
Definition is_probe (ut : string * Z) : bool := (snd ut =? 5)%Z.

(** The saves of a run that were committed, in order. *)
Definition committed (saves : list (Db.sqlite_outcome * EarningsCall))
  : list EarningsCall :=
  map snd (filter (fun oc => match fst oc with
                             | Db.Committed => true
                             | Db.SqliteError => false
                             end) saves).

(** The calls of a list paired with the fates of their [save_call]s, the
    first of which is the save number [n] of the run. *)
Fixpoint tagged (sq : nat -> db_access) (n : nat)
  (calls : list EarningsCall) : list (Db.sqlite_outcome * EarningsCall) :=
  match calls with
  | [] => []
  | c :: rest => (outcome_of (sq n), c) :: tagged sq (S n) rest
  end.

(** The database opens for every [save_call] from number [n] on, for [k]
    of them. *)
Definition opens (sq : nat -> db_access) (n k : nat) : Prop :=
  forall i, i < k -> sq (n + i) <> Unopenable.

(** The process after the save loop has handed [calls] to [save_call]. *)
Definition all_saved (p : Process) (calls : list EarningsCall) : Process :=
  {| world := world p;
     table := Db.save_all (table p) (tagged (sqlite p) (saves p) calls);
     sqlite := sqlite p;
     saves := saves p + List.length calls;
     slept := slept p |}.

(** The process [p] with its world replaced and [secs] more seconds of
    sleep, table and saves untouched. *)
Definition crawled (p : Process) (w : World) (secs : Z) : Process :=
  {| world := w;
     table := table p;
     sqlite := sqlite p;
     saves := saves p;
     slept := (slept p + secs)%Z |}.

(** The rowids grow along the table. *)
Fixpoint ids_increasing (t : Db.Table) : Prop :=
  match t with
  | [] => True
  | r :: rest =>
      (0 < Db.id r)%Z /\
      (forall r', In r' rest -> (Db.id r < Db.id r')%Z) /\
      ids_increasing rest
  end.

(* ===================================================================== *)
(** ** Fixtures for concrete runs *)
(* ===================================================================== *)

Module Fixture.

(** The host part of an absolute http or https url: what stands between
    the two slashes and the next of / ? #. *)
Fixpoint upto_delimiter (s : string) : string :=
  match s with
  | EmptyString => EmptyString
  | String c t =>
      if Ascii.eqb c "/" || Ascii.eqb c "?" || Ascii.eqb c "#"
      then EmptyString
      else String c (upto_delimiter t)
  end.

Definition host_of (href : string) : option string :=
  if PyStr.startswith "https://" href then Some (upto_delimiter (drop 8 href))
  else if PyStr.startswith "http://" href
       then Some (upto_delimiter (drop 7 href))
       else None.

(** One of [ and ] occurs in the host and the other does not: the case in
    which [urllib.parse] raises "Invalid IPv6 URL". *)
Definition unmatched_bracket (host : string) : bool :=
  xorb (PyStr.contains "[" host) (PyStr.contains "]" host).

(** A resolver that agrees with [urljoin] on the absolute hrefs used
    below: it raises on a host with an unmatched bracket, and gives the
    href back otherwise. *)
Definition resolve (base href : string) : option string :=
  match host_of href with
  | Some host => if unmatched_bracket host then None else Some href
  | None => Some href
  end.

(** [urlparse] of the seed urls used below: it raises on http://[bad and
    finds the scheme https and the host ir.example.com in the others. *)
Definition urlparse (u : string) : option ParseResult :=
  if String.eqb u "http://[bad" then None
  else Some {| scheme := "https"; netloc := "ir.example.com" |}.

(** A page whose third anchor passes the filter and has an href that
    [urljoin] rejects. *)
Definition bad_anchor (content : string) : list (string * string) :=
  [ ("https://ir.example.com/q1.mp3", "Q1 2024 Earnings Call");
    ("https://ir.example.com/contact", "Contact Us");
    ("http://[bad", "Q2 2024 Earnings Call") ].

(** The database opens and the export file can be written. *)
Definition healthy : Disk :=
  {| db_created := true;
     stats_read := true;
     rows_read := true;
     file_written := true |}.

(** A page with no anchors. *)
Definition find_all_a (content : string) : list (string * string) := [].

Definition noon : datetime :=
  {| dt_year := 2025; isoformat := "2025-06-30T12:00:00" |}.

(** Every request fails to connect. *)
Definition offline : World :=
  {| server := fun _ _ _ => Failure ConnectionError;
     requests := [];
     clock := fun _ => noon;
     clock_reads := 0 |}.

(** Requests time out and come back [404 Not Found] in turn. *)
Definition flaky : World :=
  {| server := fun n _ _ =>
                 if Nat.even n then Failure ReadTimeout else Reply 404 "";
     requests := [];
     clock := fun _ => noon;
     clock_reads := 0 |}.

(** No network, and a clock that passes midnight of New Year's Eve between
    its first and its second reading. *)
Definition new_year : World :=
  {| server := fun _ _ _ => Failure ConnectionError;
     requests := [];
     clock := fun n =>
                match n with
                | O => {| dt_year := 2024;
                          isoformat := "2024-12-31T23:59:59.999987" |}
                | S _ => {| dt_year := 2025;
                            isoformat := "2025-01-01T00:00:00.000012" |}
                end;
     clock_reads := 0 |}.

(** Every page holds the same four anchors, one of them twice. *)
Definition four_anchors (content : string) : list (string * string) :=
  [ ("https://ir.example.com/q1.mp3", "Q1 2024 Earnings Call");
    ("https://ir.example.com/contact", "Contact Us");
    ("https://ir.example.com/agm", "Annual Meeting Webcast");
    ("https://ir.example.com/q1.mp3", "Q1 2024 Earnings Call") ].

(** Every request is answered with [200 OK]. *)
Definition online : World :=
  {| server := fun _ _ _ => Reply 200 "<html></html>";
     requests := [];
     clock := fun _ => noon;
     clock_reads := 0 |}.


(** A first run: no database file yet, every save is committed. *)
Definition first_run (w : World) : Process :=
  start None w (fun _ => Opened Db.Committed).

(** Every request is answered with [204 No Content]. *)
Definition no_content : World :=
  {| server := fun _ _ _ => Reply 204 "";
     requests := [];
     clock := fun _ => noon;
     clock_reads := 0 |}.

Definition call (u t : string) : EarningsCall :=
  {| ticker := "EX"; company := "Example Corp"; title := t; url := u;
     call_type := "webcast"; quarter := "Q1"; year := 2024;
     found_on_page := "https://ir.example.com/";
     discovered_at := "2025-06-30T12:00:00" |}.

End Fixture.

(* ===================================================================== *)
(** ** Facts about the string primitives *)
(* ===================================================================== *)

Section StringFacts.

Import PyStr.

Lemma startswith_spec (p s : string) :
  startswith p s = true <-> exists post, s = p ++ post.
Proof.
  revert s; induction p as [|a p IH]; intros s; simpl.
  - split; [intros _; exists s; reflexivity | reflexivity].
  - destruct s as [|b s].
    + split; [discriminate | intros [post H]; discriminate H].
    + rewrite andb_true_iff, Ascii.eqb_eq, IH. split.
      * intros [-> [post ->]]. exists post. reflexivity.
      * intros [post H]. injection H as -> ->. split; [reflexivity|].
        exists post; reflexivity.
Qed.

Lemma contains_spec (sub s : string) :
  contains sub s = true <-> substring_of sub s.
Proof.
  unfold substring_of. induction s as [|b s IH].
  - simpl. destruct (startswith sub "") eqn:E.
    + apply startswith_spec in E. destruct E as [post E].
      split; [intros _; exists "", post; exact E | reflexivity].
    + split; [discriminate|]. intros [pre [post H]].
      destruct pre; simpl in H.
      * assert (startswith sub "" = true) as E'
          by (apply startswith_spec; exists post; exact H).
        congruence.
      * discriminate H.
  - simpl. destruct (startswith sub (String b s)) eqn:E.
    + apply startswith_spec in E. destruct E as [post E].
      split; [intros _; exists "", post; exact E | reflexivity].
    + rewrite IH. split.
      * intros [pre [post ->]]. exists (String b pre), post. reflexivity.
      * intros [pre [post H]]. destruct pre as [|c pre]; simpl in H.
        -- assert (startswith sub (String b s) = true) as E'
             by (apply startswith_spec; exists post; exact H).
           congruence.
        -- injection H as _ ->. exists pre, post. reflexivity.
Qed.

Lemma any_in_spec (subs : list string) (s : string) :
  any_in subs s = true <-> some_keyword_in subs s.
Proof.
  unfold any_in, some_keyword_in. rewrite existsb_exists.
  split; intros [x [Hin H]]; exists x; (split; [exact Hin|]);
    apply contains_spec; exact H.
Qed.

Lemma any_in_false (subs : list string) (s : string) :
  any_in subs s = false <->
  forall kw, In kw subs -> ~ substring_of kw s.
Proof.
  rewrite <- not_true_iff_false, any_in_spec. unfold some_keyword_in.
  split.
  - intros H kw Hin Hsub. apply H. exists kw. split; assumption.
  - intros H [kw [Hin Hsub]]. exact (H kw Hin Hsub).
Qed.

Lemma get_drop (i k : nat) (s : string) :
  get k (drop i s) = get (i + k) s.
Proof.
  revert s; induction i as [|i IH]; intros s; simpl.
  - reflexivity.
  - destruct s as [|c s]; simpl.
    + destruct k; reflexivity.
    + apply IH.
Qed.

Lemma drop_cons (i : nat) (c : ascii) (s : string) :
  drop (S i) (String c s) = drop i s.
Proof. reflexivity. Qed.

Lemma re_search_some {A : Type} (m : string -> option A) (s : string) g :
  re_search m s = Some g ->
  exists i, m (drop i s) = Some g /\ forall j, j < i -> m (drop j s) = None.
Proof.
  induction s as [|c s IH]; simpl.
  - destruct (m "") eqn:E; [|discriminate].
    intros H; injection H as ->. exists 0. split; [exact E | intros j Hj; lia].
  - destruct (m (String c s)) eqn:E.
    + intros H; injection H as ->. exists 0.
      split; [exact E | intros j Hj; lia].
    + intros H. destruct (IH H) as [i [Hi Hlt]]. exists (S i). split.
      * exact Hi.
      * intros [|j] Hj; [exact E | apply Hlt; lia].
Qed.

Lemma re_search_none {A : Type} (m : string -> option A) (s : string) :
  re_search m s = None -> forall i, m (drop i s) = None.
Proof.
  induction s as [|c s IH]; simpl.
  - destruct (m "") eqn:E; [discriminate|]. intros _ [|i]; exact E.
  - destruct (m (String c s)) eqn:E; [discriminate|].
    intros H [|i]; [exact E | apply IH; exact H].
Qed.

End StringFacts.

Section PatternFacts.

Import PyStr.

Local Ltac ascii_cases c := destruct c as [[] [] [] [] [] [] [] []].

Lemma is_1_4_spec (d : ascii) :
  is_1_4 d = true <-> In d [ "1"; "2"; "3"; "4" ]%char.
Proof.
  ascii_cases d; vm_compute; split; intros H;
    first [ discriminate H | reflexivity | intuition congruence ].
Qed.

Lemma isdigit_spec (c : ascii) : isdigit c = true <-> decimal_digit c.
Proof.
  ascii_cases c; vm_compute; split; intros H;
    first [ discriminate H | reflexivity | intuition congruence ].
Qed.

Lemma lower_char_q (c : ascii) :
  lower_char c = "q"%char <-> c = "q"%char \/ c = "Q"%char.
Proof.
  ascii_cases c; vm_compute; split; intros H;
    first [ discriminate H | reflexivity | intuition congruence ].
Qed.

Lemma lower_char_1_4 (c : ascii) :
  is_1_4 (lower_char c) = true -> lower_char c = c.
Proof.
  ascii_cases c; vm_compute; intros H;
    first [ discriminate H | reflexivity ].
Qed.

Lemma lower_char_1_4_id (c : ascii) :
  is_1_4 c = true -> lower_char c = c.
Proof.
  ascii_cases c; vm_compute; intros H;
    first [ discriminate H | reflexivity ].
Qed.

Lemma get_lower (i : nat) (s : string) :
  get i (lower s) = option_map lower_char (get i s).
Proof.
  revert i; induction s as [|c s IH]; intros i; simpl.
  - reflexivity.
  - destruct i; [reflexivity | apply IH].
Qed.

Lemma get_head (u : string) (c : ascii) :
  get 0 u = Some c -> exists t, u = String c t.
Proof.
  destruct u as [|b t]; simpl; [discriminate|].
  intros H; injection H as ->. exists t; reflexivity.
Qed.

Lemma get_drop' (i k : nat) (s : string) :
  get k (drop i s) = get (k + i) s.
Proof. rewrite Nat.add_comm. apply get_drop. Qed.

Lemma quarter_at_lower (s : string) (i : nat) (d : ascii) :
  quarter_at (lower s) i d <-> quarter_at_ci s i d.
Proof.
  unfold quarter_at, quarter_at_ci. rewrite !get_lower. split.
  - intros [Hq [Hd Hin]]. 
    destruct (get i s) as [c|]; [|discriminate Hq].
    destruct (get (S i) s) as [c'|]; [|discriminate Hd].
    simpl in Hq, Hd. injection Hq as Hq. injection Hd as Hd.
    apply lower_char_q in Hq.
    assert (lower_char c' = c') as Hid
      by (apply lower_char_1_4, is_1_4_spec; rewrite Hd; exact Hin).
    rewrite Hid in Hd. subst c'.
    split; [destruct Hq as [-> | ->]; [left | right]; reflexivity|].
    split; [reflexivity | exact Hin].
  - intros [Hq [Hd Hin]]. rewrite Hd. simpl.
    rewrite (lower_char_1_4_id d) by (apply is_1_4_spec; exact Hin).
    split; [|split; [reflexivity | exact Hin]].
    destruct Hq as [-> | ->]; reflexivity.
Qed.

Lemma match_quarter_at (s : string) (i : nat) (g : string) :
  match_quarter (drop i s) = Some g ->
  exists d, g = String d "" /\ quarter_at s i d.
Proof.
  intros H.
  assert (get 0 (drop i s) = get i s) as H0 by apply get_drop'.
  assert (get 1 (drop i s) = get (S i) s) as H1 by apply get_drop'.
  destruct (drop i s) as [|c [|d t]]; simpl in H; try discriminate H.
  destruct (Ascii.eqb c "q") eqn:Ec; simpl in H; [|discriminate H].
  destruct (is_1_4 d) eqn:Ed; [|discriminate H].
  injection H as <-. apply Ascii.eqb_eq in Ec. subst c.
  exists d. split; [reflexivity|].
  simpl in H0, H1. repeat split; [congruence | congruence |].
  apply is_1_4_spec; exact Ed.
Qed.

Lemma match_quarter_none (s : string) (i : nat) :
  match_quarter (drop i s) = None -> forall d, ~ quarter_at s i d.
Proof.
  intros H d [Hq [Hd Hin]].
  rewrite <- (get_drop' i 0) in Hq. rewrite <- (get_drop' i 1) in Hd.
  destruct (get_head _ _ Hq) as [t Ht]. rewrite Ht in H, Hd.
  simpl in Hd. destruct (get_head _ _ Hd) as [t' Ht']. rewrite Ht' in H.
  simpl in H. apply is_1_4_spec in Hin. rewrite Hin in H. discriminate H.
Qed.

Lemma int_20 (c d : ascii) :
  isdigit c = true -> isdigit d = true ->
  int (String "2" (String "0" (String c (String d "")))) =
  Some (2000 + 10 * (Z.of_N (N_of_ascii c) - 48)
             + (Z.of_N (N_of_ascii d) - 48))%Z.
Proof.
  intros Hc Hd. unfold int. cbn [int_from].
  change (digit_value "2") with (Some 2%Z).
  change (digit_value "0") with (Some 0%Z).
  unfold digit_value. rewrite Hc, Hd. cbv iota beta. f_equal. lia.
Qed.

Lemma match_year_at (s : string) (i : nat) (g : string) :
  match_year (drop i s) = Some g ->
  exists y, int g = Some y /\ year_at s i y.
Proof.
  intros H.
  assert (get 0 (drop i s) = get i s) as H0 by apply get_drop'.
  assert (get 1 (drop i s) = get (1 + i) s) as H1 by apply get_drop'.
  assert (get 2 (drop i s) = get (2 + i) s) as H2 by apply get_drop'.
  assert (get 3 (drop i s) = get (3 + i) s) as H3 by apply get_drop'.
  destruct (drop i s) as [|a [|b [|c [|d t]]]]; simpl in H;
    try discriminate H.
  destruct (Ascii.eqb a "2") eqn:Ea; simpl in H; [|discriminate H].
  destruct (Ascii.eqb b "0") eqn:Eb; simpl in H; [|discriminate H].
  destruct (isdigit c) eqn:Ec; simpl in H; [|discriminate H].
  destruct (isdigit d) eqn:Ed; [|discriminate H].
  injection H as <-. apply Ascii.eqb_eq in Ea, Eb. subst a b.
  eexists. split; [apply int_20; assumption|].
  exists c, d. simpl in H0, H1, H2, H3.
  repeat split; cbn [Nat.add]; try congruence; apply isdigit_spec; assumption.
Qed.

Lemma match_year_none (s : string) (i : nat) :
  match_year (drop i s) = None -> forall y, ~ year_at s i y.
Proof.
  intros H y [c [d [Ha [Hb [Hc [Hd [Dc [Dd _]]]]]]]].
  rewrite <- (get_drop' i 0) in Ha. rewrite <- (get_drop' i 1) in Hb.
  rewrite <- (get_drop' i 2) in Hc. rewrite <- (get_drop' i 3) in Hd.
  destruct (get_head _ _ Ha) as [t0 E0]. rewrite E0 in H, Hb, Hc, Hd.
  simpl in Hb, Hc, Hd.
  destruct (get_head _ _ Hb) as [t1 E1]. rewrite E1 in H, Hc, Hd.
  simpl in Hc, Hd.
  destruct (get_head _ _ Hc) as [t2 E2]. rewrite E2 in H, Hd.
  simpl in Hd.
  destruct (get_head _ _ Hd) as [t3 E3]. rewrite E3 in H.
  simpl in H. apply isdigit_spec in Dc, Dd. rewrite Dc, Dd in H.
  discriminate H.
Qed.

(** The first match of [q([1-4])] in [s], if there is one. *)
Lemma search_quarter_some (s g : string) :
  re_search match_quarter s = Some g ->
  exists i d, g = String d "" /\ first_at (quarter_at s) i d.
Proof.
  intros H. destruct (re_search_some _ _ _ H) as [i [Hi Hlt]].
  destruct (match_quarter_at _ _ _ Hi) as [d [-> Hq]].
  exists i, d. split; [reflexivity|]. split; [exact Hq|].
  intros j d' Hj. apply match_quarter_none, Hlt, Hj.
Qed.

Lemma search_quarter_none (s : string) :
  re_search match_quarter s = None -> forall i d, ~ quarter_at s i d.
Proof.
  intros H i. apply match_quarter_none, re_search_none, H.
Qed.

(** The first match of [(20\d{2})] in [s], if there is one. *)
Lemma search_year_some (s g : string) :
  re_search match_year s = Some g ->
  exists i y, int g = Some y /\ first_at (year_at s) i y.
Proof.
  intros H. destruct (re_search_some _ _ _ H) as [i [Hi Hlt]].
  destruct (match_year_at _ _ _ Hi) as [y [Hy Hat]].
  exists i, y. split; [exact Hy|]. split; [exact Hat|].
  intros j y' Hj. apply match_year_none, Hlt, Hj.
Qed.

Lemma search_year_none (s : string) :
  re_search match_year s = None -> forall i y, ~ year_at s i y.
Proof.
  intros H i. apply match_year_none, re_search_none, H.
Qed.

(** Two first occurrences are the same occurrence. *)
Lemma first_at_offset {X : Type} (P : nat -> X -> Prop) i x j y :
  first_at P i x -> first_at P j y -> i = j.
Proof.
  intros [Hi Hlt] [Hj Hlt'].
  destruct (Nat.lt_trichotomy i j) as [L | [E | L]].
  - exfalso. exact (Hlt' i x L Hi).
  - exact E.
  - exfalso. exact (Hlt j y L Hj).
Qed.

Lemma quarter_at_unique (s : string) i d d' :
  quarter_at s i d -> quarter_at s i d' -> d = d'.
Proof. intros [_ [H _]] [_ [H' _]]. congruence. Qed.

Lemma year_at_unique (s : string) i y y' :
  year_at s i y -> year_at s i y' -> y = y'.
Proof.
  intros [c [d [_ [_ [Hc [Hd [_ [_ ->]]]]]]]]
         [c' [d' [_ [_ [Hc' [Hd' [_ [_ ->]]]]]]]].
  congruence.
Qed.

End PatternFacts.

(* ===================================================================== *)
(** ** How [_analyze_link] runs *)
(* ===================================================================== *)

Section AnalyzeLinkFacts.

Import PyStr.

Variable resolve : string -> string -> option string.

(** An empty url is joined without a look at the base. *)
Lemma urljoin_empty (base : string) :
  urljoin resolve base "" = Some (if String.eqb base "" then "" else base).
Proof. unfold urljoin. destruct (String.eqb base ""); reflexivity. Qed.

(** No keyword: [None], and the world is left alone. *)
Lemma analyze_link_filtered href text page_url tk co w :
  any_in earnings_keywords (lower text) = false ->
  _analyze_link resolve href text page_url tk co w = (Ok None, w).
Proof.
  intros H. unfold _analyze_link. rewrite H. reflexivity.
Qed.

(** A keyword and an href that [urljoin] takes: a record, whose fields are
    read off the arguments. *)
Lemma analyze_link_record href text page_url tk co w u :
  any_in earnings_keywords (lower text) = true ->
  urljoin resolve page_url href = Some u ->
  exists r w',
    _analyze_link resolve href text page_url tk co w = (Ok (Some r), w') /\
    quarter r = match re_search match_quarter (lower text) with
                | Some g => "Q" ++ g
                | None => "Unknown"
                end /\
    (forall g, re_search match_year text = Some g -> int g = Some (year r)) /\
    (re_search match_year text = None ->
     year r = dt_year (clock w (clock_reads w))) /\
    call_type r = determine_call_type href (lower text) /\
    title r = text /\ url r = u /\
    found_on_page r = page_url /\ ticker r = tk /\ company r = co.
Proof.
  intros H Hu. unfold _analyze_link. rewrite H. cbv [negb].
  destruct (re_search match_year text) as [g|] eqn:Ey.
  - destruct (search_year_some _ _ Ey) as [i [y [Hy _]]].
    unfold bind, py_int. rewrite Hy, Hu.
    unfold or_value_error, ret, datetime_now.
    eexists. eexists. split; [reflexivity|].
    cbn [quarter year call_type title url found_on_page ticker company].
    repeat split; try reflexivity.
    + intros g' Hg'. injection Hg' as <-. exact Hy.
    + discriminate.
  - unfold bind. rewrite Hu. unfold or_value_error, ret, datetime_now.
    eexists. eexists. split; [reflexivity|].
    cbn [quarter year call_type title url found_on_page ticker company].
    repeat split; try reflexivity. discriminate.
Qed.

(** A keyword and an href that [urljoin] rejects: [ValueError]. *)
Lemma analyze_link_rejected href text page_url tk co w :
  any_in earnings_keywords (lower text) = true ->
  urljoin resolve page_url href = None ->
  fst (_analyze_link resolve href text page_url tk co w) = Raised ValueError.
Proof.
  intros H Hu. unfold _analyze_link. rewrite H. cbv [negb].
  destruct (re_search match_year text) as [g|] eqn:Ey.
  - destruct (search_year_some _ _ Ey) as [i [y [Hy _]]].
    unfold bind, py_int. rewrite Hy, Hu. reflexivity.
  - unfold bind. rewrite Hu. reflexivity.
Qed.

(** The classifier raises nothing but the [ValueError] of [urljoin]. *)
Lemma analyze_link_raised href text page_url tk co w e :
  fst (_analyze_link resolve href text page_url tk co w) = Raised e ->
  e = ValueError /\ any_in earnings_keywords (lower text) = true /\
  urljoin resolve page_url href = None.
Proof.
  intros E. destruct (any_in earnings_keywords (lower text)) eqn:H.
  - destruct (urljoin resolve page_url href) as [u|] eqn:Hu.
    + destruct (analyze_link_record href text page_url tk co w u H Hu)
        as [r [w' [E' _]]].
      rewrite E' in E. discriminate E.
    + rewrite (analyze_link_rejected _ _ _ _ _ _ H Hu) in E.
      injection E as <-. auto.
  - rewrite analyze_link_filtered in E by exact H. discriminate E.
Qed.

(** A returned record means the filter let the text through and [urljoin]
    took the href. *)
Lemma analyze_link_inv href text page_url tk co w r :
  fst (_analyze_link resolve href text page_url tk co w) = Ok (Some r) ->
  any_in earnings_keywords (lower text) = true /\
  quarter r = match re_search match_quarter (lower text) with
              | Some g => "Q" ++ g
              | None => "Unknown"
              end /\
  (forall g, re_search match_year text = Some g -> int g = Some (year r)) /\
  (re_search match_year text = None ->
   year r = dt_year (clock w (clock_reads w))) /\
  call_type r = determine_call_type href (lower text).
Proof.
  intros E. destruct (any_in earnings_keywords (lower text)) eqn:H.
  - destruct (urljoin resolve page_url href) as [u|] eqn:Hu.
    + destruct (analyze_link_record href text page_url tk co w u H Hu)
        as [r' [w' [E' [Hq [Hy [Hn [Hc _]]]]]]].
      rewrite E' in E. simpl in E. injection E as <-.
      repeat split; assumption.
    + rewrite (analyze_link_rejected _ _ _ _ _ _ H Hu) in E.
      discriminate E.
  - rewrite analyze_link_filtered in E by exact H. discriminate E.
Qed.

(** [None] comes back only when the filter stops the text. *)
Lemma analyze_link_none href text page_url tk co w :
  fst (_analyze_link resolve href text page_url tk co w) = Ok None <->
  any_in earnings_keywords (lower text) = false.
Proof.
  split.
  - intros E. destruct (any_in earnings_keywords (lower text)) eqn:H;
      [|reflexivity].
    destruct (urljoin resolve page_url href) as [u|] eqn:Hu.
    + destruct (analyze_link_record href text page_url tk co w u H Hu)
        as [r' [w' [E' _]]].
      rewrite E' in E. discriminate E.
    + rewrite (analyze_link_rejected _ _ _ _ _ _ H Hu) in E.
      discriminate E.
  - intros H. rewrite analyze_link_filtered by exact H. reflexivity.
Qed.

End AnalyzeLinkFacts.

Section CallTypeFacts.

Import PyStr.

Lemma call_type_audio href text_lower :
  some_keyword_in audio_exts (lower href) ->
  determine_call_type href text_lower = "audio".
Proof.
  intros H. apply any_in_spec in H. unfold determine_call_type.
  rewrite H. reflexivity.
Qed.

Lemma call_type_video href text_lower :
  ~ some_keyword_in audio_exts (lower href) ->
  some_keyword_in video_exts (lower href) ->
  determine_call_type href text_lower = "video".
Proof.
  intros Ha Hv. apply any_in_spec in Hv. unfold determine_call_type.
  destruct (any_in audio_exts (lower href)) eqn:E.
  - exfalso. apply Ha, any_in_spec, E.
  - rewrite Hv. reflexivity.
Qed.

Lemma call_type_transcript href text_lower :
  ~ some_keyword_in audio_exts (lower href) ->
  ~ some_keyword_in video_exts (lower href) ->
  substring_of "transcript" text_lower ->
  determine_call_type href text_lower = "transcript".
Proof.
  intros Ha Hv Ht. apply contains_spec in Ht. unfold determine_call_type.
  destruct (any_in audio_exts (lower href)) eqn:E.
  - exfalso. apply Ha, any_in_spec, E.
  - destruct (any_in video_exts (lower href)) eqn:E'.
    + exfalso. apply Hv, any_in_spec, E'.
    + rewrite Ht. reflexivity.
Qed.

Lemma call_type_webcast href text_lower :
  ~ some_keyword_in audio_exts (lower href) ->
  ~ some_keyword_in video_exts (lower href) ->
  ~ substring_of "transcript" text_lower ->
  determine_call_type href text_lower = "webcast".
Proof.
  intros Ha Hv Ht. unfold determine_call_type.
  destruct (any_in audio_exts (lower href)) eqn:E.
  - exfalso. apply Ha, any_in_spec, E.
  - destruct (any_in video_exts (lower href)) eqn:E'.
    + exfalso. apply Hv, any_in_spec, E'.
    + destruct (contains "transcript" text_lower) eqn:E''.
      * exfalso. apply Ht, contains_spec, E''.
      * reflexivity.
Qed.

Lemma call_type_enum href text_lower :
  In (determine_call_type href text_lower)
     [ "webcast"; "audio"; "video"; "transcript" ].
Proof.
  unfold determine_call_type.
  destruct (any_in audio_exts (lower href));
    [simpl; tauto|].
  destruct (any_in video_exts (lower href));
    [simpl; tauto|].
  destruct (contains "transcript" text_lower); simpl; tauto.
Qed.

End CallTypeFacts.

(* ===================================================================== *)
(** ** The link classifier *)
(* ===================================================================== *)

(** C1, as the code has it.  A keyword in the text does not always bring
    a record back: [urljoin] raises [ValueError] on the href http://[bad
    (a host with an unmatched bracket), nothing catches it in
    [_analyze_link], and the call raises. *)
Lemma rejected_href_raises :
  fst (_analyze_link Fixture.resolve "http://[bad" "Q1 2024 Earnings Call"
         "https://ir.example.com/" "EX" "Example Corp" Fixture.offline)
  = Raised ValueError.
Proof. reflexivity. Qed.

(** C1, amended.  The keyword test is the only filter of the classifier:
    [_analyze_link] returns [None] if and only if none of the ten keywords
    occurs in the lower-cased anchor text, and as soon as one occurs it
    returns a record for every href that [urljoin] resolves against the
    page url, the url of the record being the resolved one. *)
Theorem keyword_test_is_the_sole_filter :
  forall resolve href text page_url ticker company_name w,
    let keywords :=
      [ "earnings call"; "quarterly results"; "q1"; "q2"; "q3"; "q4";
        "conference call"; "webcast"; "financial results"; "investor call" ] in
    let result :=
      fst (_analyze_link resolve href text page_url ticker company_name w) in
    (result = Ok None <->
     forall kw, In kw keywords -> ~ PyStr.substring_of kw (PyStr.lower text))
    /\ ((exists kw, In kw keywords /\
                    PyStr.substring_of kw (PyStr.lower text)) ->
        forall u,
          urljoin resolve page_url href = Some u ->
          exists r, result = Ok (Some r) /\ url r = u).
Proof.
  intros resolve href text page_url tk co w keywords result.
  change keywords with earnings_keywords. subst result. split.
  - rewrite analyze_link_none. apply any_in_false.
  - intros Hsome u Hu. apply any_in_spec in Hsome.
    destruct (analyze_link_record resolve href text page_url tk co w u
                Hsome Hu) as [r [w' [E [_ [_ [_ [_ [_ [Hurl _]]]]]]]]].
    exists r. rewrite E. split; [reflexivity | exact Hurl].
Qed.

Lemma keyword_test_is_the_sole_filter_witness :
  exists r,
    fst (_analyze_link Fixture.resolve "https://ir.example.com/q2.mp3"
           "Q2 2024 Earnings Call" "https://ir.example.com/" "EX"
           "Example Corp" Fixture.offline) = Ok (Some r) /\
    url r = "https://ir.example.com/q2.mp3".
Proof.
  apply (proj2 (keyword_test_is_the_sole_filter Fixture.resolve
                  "https://ir.example.com/q2.mp3" "Q2 2024 Earnings Call"
                  "https://ir.example.com/" "EX" "Example Corp"
                  Fixture.offline)).
  - exists "earnings call". split.
    + simpl. tauto.
    + exists "q2 2024 ", "". reflexivity.
  - reflexivity.
Defined.

(** C2, as the code has it.  The text "Transcript" on its own holds none
    of the keywords, so with href "call.mp3" no record comes back. *)
Lemma transcript_alone_is_filtered_out :
  _analyze_link Fixture.resolve "call.mp3" "Transcript"
    "https://ir.example.com/events" "EX" "Example Corp" Fixture.offline
  = (Ok None, Fixture.offline).
Proof. reflexivity. Qed.

(** C2, amended.  For every anchor that passes the keyword filter,
    [call_type] follows the fixed priority: an audio marker (.mp3, .wav,
    .m4a) in the lower-cased href, then a video marker (.mp4, .webm), then
    the word "transcript" in the lower-cased text, else "webcast"; it is
    always one of the four values; href "call.mp3" with the text
    "Q2 Earnings Call Transcript" gives "audio" (on a page against which
    the href resolves), while the text "Transcript" alone does not pass the
    filter. *)
Theorem call_type_priority :
  forall resolve href text page_url ticker company_name w r,
    fst (_analyze_link resolve href text page_url ticker company_name w)
      = Ok (Some r) ->
    let audio := some_keyword_in [ ".mp3"; ".wav"; ".m4a" ] (PyStr.lower href) in
    let video := some_keyword_in [ ".mp4"; ".webm" ] (PyStr.lower href) in
    let transcript := PyStr.substring_of "transcript" (PyStr.lower text) in
    (audio -> call_type r = "audio") /\
    (~ audio -> video -> call_type r = "video") /\
    (~ audio -> ~ video -> transcript -> call_type r = "transcript") /\
    (~ audio -> ~ video -> ~ transcript -> call_type r = "webcast") /\
    In (call_type r) [ "webcast"; "audio"; "video"; "transcript" ] /\
    (forall u,
        urljoin resolve page_url "call.mp3" = Some u ->
        exists r' w',
          _analyze_link resolve "call.mp3" "Q2 Earnings Call Transcript"
            page_url ticker company_name w = (Ok (Some r'), w') /\
          call_type r' = "audio") /\
    fst (_analyze_link resolve "call.mp3" "Transcript"
           page_url ticker company_name w) = Ok None.
Proof.
  intros resolve href text page_url tk co w r E audio video transcript.
  destruct (analyze_link_inv resolve _ _ _ _ _ _ _ E)
    as [_ [_ [_ [_ Hc]]]].
  rewrite Hc.
  refine (conj _ (conj _ (conj _ (conj _ (conj _ (conj _ _)))))).
  - apply call_type_audio.
  - apply call_type_video.
  - apply call_type_transcript.
  - apply call_type_webcast.
  - apply call_type_enum.
  - intros u Hu.
    destruct (analyze_link_record resolve "call.mp3"
                "Q2 Earnings Call Transcript" page_url tk co w u
                eq_refl Hu) as [r' [w' [E' [_ [_ [_ [Hc' _]]]]]]].
    exists r', w'. split; [exact E' | rewrite Hc'; reflexivity].
  - rewrite analyze_link_filtered by reflexivity. reflexivity.
Qed.

Lemma call_type_priority_witness :
  exists r,
    fst (_analyze_link Fixture.resolve "https://ir.example.com/call.mp3"
           "Q2 Earnings Call Transcript" "https://ir.example.com/events"
           "EX" "Example Corp" Fixture.offline) = Ok (Some r) /\
    call_type r = "audio".
Proof.
  eexists. split; [reflexivity|].
  apply (call_type_priority Fixture.resolve
           "https://ir.example.com/call.mp3" "Q2 Earnings Call Transcript"
           "https://ir.example.com/events" "EX" "Example Corp"
           Fixture.offline _ eq_refl).
  exists ".mp3". split.
  - simpl. tauto.
  - exists "https://ir.example.com/call", "". reflexivity.
Defined.

(** C3.  In every record the classifier returns, [quarter] is "Q<d>" for
    the digit [d] of the first q-followed-by-1..4 in the lower-cased anchor
    text, and it is "Unknown" exactly when the anchor text has no such
    pattern in either case. *)
Theorem quarter_is_first_match :
  forall resolve href text page_url ticker company_name w r,
    fst (_analyze_link resolve href text page_url ticker company_name w)
      = Ok (Some r) ->
    (forall i d,
        first_at (quarter_at (PyStr.lower text)) i d ->
        quarter r = String "Q" (String d "")) /\
    (quarter r = "Unknown" <-> forall i d, ~ quarter_at_ci text i d).
Proof.
  intros resolve href text page_url tk co w r E.
  destruct (analyze_link_inv resolve _ _ _ _ _ _ _ E) as [_ [Hq _]].
  rewrite Hq.
  destruct (PyStr.re_search PyStr.match_quarter (PyStr.lower text))
    as [g|] eqn:Es.
  - destruct (search_quarter_some _ _ Es) as [i0 [d0 [-> Hfirst]]].
    split.
    + intros i d Hf.
      assert (i0 = i) by exact (first_at_offset _ _ _ _ _ Hfirst Hf).
      subst i0. destruct Hfirst as [H0 _], Hf as [H1 _].
      rewrite (quarter_at_unique _ _ _ _ H0 H1). reflexivity.
    + split; [discriminate|]. intros Hno. exfalso.
      destruct Hfirst as [H0 _]. apply quarter_at_lower in H0.
      exact (Hno i0 d0 H0).
  - split.
    + intros i d [Hat _]. exfalso.
      exact (search_quarter_none _ Es i d Hat).
    + split; [|reflexivity]. intros _ i d Hci.
      apply quarter_at_lower in Hci.
      exact (search_quarter_none _ Es i d Hci).
Qed.

Lemma quarter_is_first_match_witness :
  exists r,
    fst (_analyze_link Fixture.resolve "https://ir.example.com/q3"
           "FY24 Q3 and Q4 Conference Call" "https://ir.example.com/" "EX"
           "Example Corp" Fixture.offline) = Ok (Some r) /\
    quarter r = "Q3".
Proof.
  eexists. split; [reflexivity|].
  apply (proj1 (quarter_is_first_match Fixture.resolve
                  "https://ir.example.com/q3" "FY24 Q3 and Q4 Conference Call"
                  "https://ir.example.com/" "EX" "Example Corp"
                  Fixture.offline _ eq_refl) 5 "3"%char).
  split.
  - repeat split; simpl; tauto.
  - intros j d' Hj [Hq _].
    do 5 (destruct j as [|j]; [discriminate Hq|]). lia.
Defined.

(** C4.  In every record the classifier returns, [year] is the value of
    the first four-digit number beginning with 20 in the anchor text as it
    was given (four digits in a row at any offset, the first two being 2
    and 0, as the pattern has it), and the year the wall clock shows when
    the classifier runs if the text has no such number. *)
Theorem year_is_first_match_or_current :
  forall resolve href text page_url ticker company_name w r,
    fst (_analyze_link resolve href text page_url ticker company_name w)
      = Ok (Some r) ->
    (forall i y, first_at (year_at text) i y -> year r = y) /\
    ((forall i y, ~ year_at text i y) ->
     forall now, fst (datetime_now w) = Ok now -> year r = dt_year now).
Proof.
  intros resolve href text page_url tk co w r E.
  destruct (analyze_link_inv resolve _ _ _ _ _ _ _ E)
    as [_ [_ [Hy [Hn _]]]].
  destruct (PyStr.re_search PyStr.match_year text) as [g|] eqn:Es.
  - destruct (search_year_some _ _ Es) as [i0 [y0 [Hint Hfirst]]].
    specialize (Hy g eq_refl). split.
    + intros i y Hf.
      assert (i0 = i) by exact (first_at_offset _ _ _ _ _ Hfirst Hf).
      subst i0. destruct Hfirst as [H0 _], Hf as [H1 _].
      rewrite <- (year_at_unique _ _ _ _ H0 H1). congruence.
    + intros Hno. exfalso. destruct Hfirst as [H0 _].
      exact (Hno i0 y0 H0).
  - split.
    + intros i y [Hat _]. exfalso. exact (search_year_none _ Es i y Hat).
    + intros _ now Hnow. unfold datetime_now in Hnow. simpl in Hnow.
      injection Hnow as <-. apply Hn. reflexivity.
Qed.

Lemma year_is_first_match_or_current_witness :
  exists r,
    fst (_analyze_link Fixture.resolve "https://ir.example.com/q3"
           "Q3 2024 Conference Call (replay until 2025)"
           "https://ir.example.com/" "EX" "Example Corp" Fixture.offline)
      = Ok (Some r) /\
    year r = 2024%Z.
Proof.
  eexists. split; [reflexivity|].
  apply (proj1 (year_is_first_match_or_current Fixture.resolve
                  "https://ir.example.com/q3"
                  "Q3 2024 Conference Call (replay until 2025)"
                  "https://ir.example.com/" "EX" "Example Corp"
                  Fixture.offline _ eq_refl) 3).
  split.
  - exists "2"%char, "4"%char. unfold decimal_digit.
    repeat split; simpl; tauto.
  - intros j y' Hj [c [d [Ha _]]].
    do 3 (destruct j as [|j]; [discriminate Ha|]). lia.
Defined.

(** C5, as the code has it.  An empty href does not stop the classifier:
    the keyword test reads the anchor text only, so an anchor with an empty
    href and the text "Q1 2024 Earnings Call" is classified. *)
Lemma empty_href_is_classified :
  fst (_analyze_link Fixture.resolve "" "Q1 2024 Earnings Call"
         "https://ir.example.com/" "EX" "Example Corp" Fixture.offline)
  = Ok (Some {| ticker := "EX";
                company := "Example Corp";
                title := "Q1 2024 Earnings Call";
                url := "https://ir.example.com/";
                call_type := "webcast";
                quarter := "Q1";
                year := 2024;
                found_on_page := "https://ir.example.com/";
                discovered_at := "2025-06-30T12:00:00" |}).
Proof. reflexivity. Qed.

(** C5, amended.  The classifier has no error condition on malformed
    input: called with an empty href or an empty anchor text it returns and
    does not raise.  An empty anchor text fails the keyword test and gives
    [None]; an empty href has no part in the test, and with it the
    classifier gives [None] exactly when the text holds no keyword. *)
Theorem classifier_total_on_empty_input :
  forall resolve href text page_url ticker company_name w,
    href = "" \/ text = "" ->
    exists res,
      fst (_analyze_link resolve href text page_url ticker company_name w)
        = Ok res /\
      (text = "" -> res = None) /\
      (res = None <->
       ~ some_keyword_in earnings_keywords (PyStr.lower text)).
Proof.
  intros resolve href text page_url tk co w Hempty.
  destruct (PyStr.any_in earnings_keywords (PyStr.lower text)) eqn:H.
  - destruct Hempty as [-> | ->]; [|discriminate H].
    destruct (analyze_link_record resolve "" text page_url tk co w _ H
                (urljoin_empty resolve page_url)) as [r [w' [E _]]].
    exists (Some r). rewrite E. split; [reflexivity|]. split.
    + intros ->. discriminate H.
    + split; [discriminate|].
      intros Hno. exfalso. apply Hno, any_in_spec, H.
  - exists None. rewrite analyze_link_filtered by exact H.
    split; [reflexivity|]. split; [reflexivity|].
    split; [|reflexivity]. intros _ Hsome.
    apply any_in_spec in Hsome. congruence.
Qed.

Lemma classifier_total_on_empty_input_witness :
  exists res,
    fst (_analyze_link Fixture.resolve "" "Contact Us"
           "https://ir.example.com/" "EX" "Example Corp" Fixture.offline)
      = Ok res /\
    (res = None <->
     ~ some_keyword_in earnings_keywords (PyStr.lower "Contact Us")).
Proof.
  destruct (classifier_total_on_empty_input Fixture.resolve "" "Contact Us"
              "https://ir.example.com/" "EX" "Example Corp" Fixture.offline
              (or_introl eq_refl)) as [res [E [_ H]]].
  exists res. split; [exact E | exact H].
Defined.

(** C9.  The extension check is containment in the whole lower-cased
    href, not a test of its end: for every anchor that passes the keyword
    filter, ".mp3", ".wav" or ".m4a" anywhere in the lower-cased href gives
    "audio", and ".mp4" or ".webm" anywhere, with no audio marker, gives
    "video". *)
Theorem extension_check_is_containment :
  forall resolve href text page_url ticker company_name w r,
    fst (_analyze_link resolve href text page_url ticker company_name w)
      = Ok (Some r) ->
    let h := PyStr.lower href in
    ((PyStr.substring_of ".mp3" h \/ PyStr.substring_of ".wav" h \/
      PyStr.substring_of ".m4a" h) ->
     call_type r = "audio") /\
    ((PyStr.substring_of ".mp4" h \/ PyStr.substring_of ".webm" h) ->
     ~ (PyStr.substring_of ".mp3" h \/ PyStr.substring_of ".wav" h \/
        PyStr.substring_of ".m4a" h) ->
     call_type r = "video").
Proof.
  intros resolve href text page_url tk co w r E h.
  destruct (analyze_link_inv resolve _ _ _ _ _ _ _ E)
    as [_ [_ [_ [_ Hc]]]].
  rewrite Hc. subst h.
  assert (forall s,
             some_keyword_in audio_exts s <->
             (PyStr.substring_of ".mp3" s \/ PyStr.substring_of ".wav" s \/
              PyStr.substring_of ".m4a" s)) as Haudio.
  { intros s. unfold some_keyword_in, audio_exts. split.
    - intros [kw [[<- | [<- | [<- | []]]] Hs]]; tauto.
    - intros [Hs | [Hs | Hs]]; eexists; (split; [|exact Hs]); simpl; tauto. }
  assert (forall s,
             some_keyword_in video_exts s <->
             (PyStr.substring_of ".mp4" s \/ PyStr.substring_of ".webm" s))
    as Hvideo.
  { intros s. unfold some_keyword_in, video_exts. split.
    - intros [kw [[<- | [<- | []]] Hs]]; tauto.
    - intros [Hs | Hs]; eexists; (split; [|exact Hs]); simpl; tauto. }
  split.
  - intros Ha. apply call_type_audio, Haudio, Ha.
  - intros Hv Hna. apply call_type_video.
    + intros Ha. apply Hna, Haudio, Ha.
    + apply Hvideo, Hv.
Qed.

Lemma extension_check_is_containment_witness :
  exists r,
    fst (_analyze_link Fixture.resolve
           "https://host/files.mp3archive/page.html"
           "Annual Meeting Webcast" "https://ir.example.com/" "EX"
           "Example Corp" Fixture.offline) = Ok (Some r) /\
    call_type r = "audio".
Proof.
  eexists. split; [reflexivity|].
  apply (proj1 (extension_check_is_containment Fixture.resolve
                  "https://host/files.mp3archive/page.html"
                  "Annual Meeting Webcast" "https://ir.example.com/" "EX"
                  "Example Corp" Fixture.offline _ eq_refl)).
  left. exists "https://host/files", "archive/page.html". reflexivity.
Defined.

(* ===================================================================== *)
(** ** The record store *)
(* ===================================================================== *)

Section DbFacts.

Import Db.

Local Open Scope list_scope.

Lemma filter_has_url_other (u : string) (t : Table) :
  filter (has_url u) (filter (fun r => negb (has_url u r)) t) = [].
Proof.
  induction t as [|r t IH]; simpl; [reflexivity|].
  destruct (has_url u r) eqn:E; simpl; [exact IH|].
  rewrite E. exact IH.
Qed.

Lemma filter_other_idem (u : string) (t : Table) :
  filter (fun r => negb (has_url u r))
         (filter (fun r => negb (has_url u r)) t)
  = filter (fun r => negb (has_url u r)) t.
Proof.
  induction t as [|r t IH]; simpl; [reflexivity|].
  destruct (has_url u r) eqn:E; simpl; [exact IH|].
  rewrite E. simpl. f_equal. exact IH.
Qed.

Lemma has_url_refl (i : Z) (c : EarningsCall) :
  has_url (url c) {| id := i; data := c |} = true.
Proof. unfold has_url. simpl. apply String.eqb_refl. Qed.

(** After a committed save the url of the record is held by exactly the
    row just written. *)
Lemma rows_with_url_insert (t : Table) (c : EarningsCall) :
  rows_with_url (url c) (insert_or_replace t c)
  = [ {| id := (max_id t + 1)%Z; data := c |} ].
Proof.
  unfold rows_with_url, insert_or_replace.
  rewrite filter_app, filter_has_url_other. simpl.
  rewrite has_url_refl. reflexivity.
Qed.

Lemma length_insert (t : Table) (c : EarningsCall) :
  length (insert_or_replace t c)
  = S (length (filter (fun r => negb (has_url (url c) r)) t)).
Proof.
  unfold insert_or_replace. rewrite length_app. simpl. lia.
Qed.

(** Rows under other urls are not touched by a save. *)
Lemma rows_with_url_insert_other (t : Table) (c : EarningsCall) (u : string) :
  u <> url c ->
  rows_with_url u (insert_or_replace t c) = rows_with_url u t.
Proof.
  intros Hne. unfold rows_with_url, insert_or_replace.
  rewrite filter_app. simpl.
  assert (has_url u {| id := (max_id t + 1)%Z; data := c |} = false) as E.
  { unfold has_url. simpl. apply String.eqb_neq. congruence. }
  rewrite E, app_nil_r. clear E.
  induction t as [|r t IH]; simpl; [reflexivity|].
  destruct (has_url (url c) r) eqn:E1; simpl.
  - destruct (has_url u r) eqn:E2; [|exact IH]. exfalso.
    unfold has_url in E1, E2.
    apply String.eqb_eq in E1, E2. congruence.
  - destruct (has_url u r); [f_equal|]; exact IH.
Qed.

Lemma url_unique_filter (f : Row -> bool) (t : Table) :
  url_unique t -> url_unique (filter f t).
Proof.
  unfold url_unique. induction t as [|r t IH]; simpl; intros H.
  - constructor.
  - inversion H as [|x l Hnin Hnd]; subst.
    destruct (f r); simpl; [constructor|]; auto.
    intros Hin. apply Hnin.
    apply in_map_iff in Hin. destruct Hin as [r' [Hu Hin]].
    apply filter_In in Hin. apply in_map_iff. exists r'. tauto.
Qed.

Lemma NoDup_snoc {X : Type} (l : list X) (a : X) :
  NoDup l -> ~ In a l -> NoDup (l ++ [a]).
Proof.
  induction l as [|x l IH]; simpl; intros Hnd Hnin.
  - constructor; [intros [] | constructor].
  - inversion Hnd as [|y l' Hx Hl]; subst. constructor.
    + rewrite in_app_iff. simpl. intros [Hin | [-> | []]]; tauto.
    + apply IH; tauto.
Qed.

Lemma url_unique_insert (t : Table) (c : EarningsCall) :
  url_unique t -> url_unique (insert_or_replace t c).
Proof.
  intros H. unfold url_unique, insert_or_replace.
  rewrite map_app. simpl. apply NoDup_snoc.
  - apply (url_unique_filter _ _ H).
  - intros Hin. apply in_map_iff in Hin. destruct Hin as [r [Hu Hin]].
    apply filter_In in Hin. destruct Hin as [_ Hneg].
    unfold has_url in Hneg. rewrite Hu, String.eqb_refl in Hneg.
    discriminate Hneg.
Qed.

Lemma url_unique_save_all (t : Table) saves :
  url_unique t -> url_unique (save_all t saves).
Proof.
  revert t. unfold save_all.
  induction saves as [|[o c] saves IH]; intros t H; simpl; [exact H|].
  apply IH. destruct o; simpl; [apply url_unique_insert|]; exact H.
Qed.

Lemma sum_counts_bump (k : string) (g : list (string * nat)) :
  sum_counts (bump k g) = S (sum_counts g).
Proof.
  induction g as [|[k' n] g IH]; simpl; [reflexivity|].
  destruct (String.eqb k' k); simpl; [reflexivity|].
  rewrite IH. lia.
Qed.

Lemma sum_counts_fold (t : Table) (g : list (string * nat)) :
  sum_counts (fold_left (fun acc r => bump (ticker (data r)) acc) t g)
  = length t + sum_counts g.
Proof.
  revert g. induction t as [|r t IH]; intros g; simpl; [reflexivity|].
  rewrite IH, sum_counts_bump. lia.
Qed.

(** The counts of the groups add up to the number of rows. *)
Lemma sum_counts_group (t : Table) :
  sum_counts (group_by_ticker t) = length t.
Proof.
  unfold group_by_ticker. rewrite sum_counts_fold. simpl. lia.
Qed.

End DbFacts.

Section GroupByFacts.

Import Db.

Local Open Scope list_scope.

Lemma count_of_bump_same (k : string) (g : list (string * nat)) :
  count_of k (bump k g) = S (count_of k g).
Proof.
  unfold count_of. induction g as [|[k' n] g IH]; simpl.
  - rewrite String.eqb_refl. reflexivity.
  - destruct (String.eqb k' k) eqn:E; simpl; rewrite E; [reflexivity|].
    exact IH.
Qed.

Lemma count_of_bump_other (k k0 : string) (g : list (string * nat)) :
  k0 <> k -> count_of k0 (bump k g) = count_of k0 g.
Proof.
  intros Hne. unfold count_of. induction g as [|[k' n] g IH]; simpl.
  - apply not_eq_sym, String.eqb_neq in Hne. rewrite Hne. reflexivity.
  - destruct (String.eqb k' k) eqn:E; simpl.
    + apply String.eqb_eq in E. subst k'.
      apply not_eq_sym, String.eqb_neq in Hne. rewrite Hne. reflexivity.
    + destruct (String.eqb k' k0); [reflexivity | exact IH].
Qed.

Lemma keys_bump (k : string) (g : list (string * nat)) :
  NoDup (map fst g) -> NoDup (map fst (bump k g)) /\
  forall x, In x (map fst (bump k g)) <-> x = k \/ In x (map fst g).
Proof.
  induction g as [|[k' n] g IH]; simpl; intros H.
  - split; [constructor; [intros [] | constructor] | intros x; intuition].
  - inversion H as [|y l Hnin Hnd]; subst.
    destruct (String.eqb k' k) eqn:E; simpl.
    + apply String.eqb_eq in E. subst k'. split; [exact H|].
      intros x. intuition.
    + destruct (IH Hnd) as [Hnd' Hin]. split.
      * constructor; [|exact Hnd']. rewrite Hin. intros [-> | Hx].
        -- rewrite String.eqb_refl in E. discriminate E.
        -- exact (Hnin Hx).
      * intros x. rewrite Hin. intuition.
Qed.

Lemma group_by_ticker_snoc (t : Table) (r : Row) :
  group_by_ticker (t ++ [r]) = bump (ticker (data r)) (group_by_ticker t).
Proof. unfold group_by_ticker. rewrite fold_left_app. reflexivity. Qed.

(** [group_by_ticker] is a [GROUP BY]: one group per ticker, and the count
    of a group is the number of rows of that ticker. *)
Lemma group_by_ticker_spec (t : Table) :
  NoDup (map fst (group_by_ticker t)) /\
  forall k, count_of k (group_by_ticker t) = rows_of_ticker k t.
Proof.
  induction t as [|r t [Hnd Hc]] using rev_ind.
  - split; [constructor | reflexivity].
  - rewrite group_by_ticker_snoc. split.
    + apply keys_bump, Hnd.
    + intros k. unfold rows_of_ticker. rewrite filter_app, length_app.
      simpl. destruct (String.eqb (ticker (data r)) k) eqn:E.
      * apply String.eqb_eq in E. subst k.
        rewrite count_of_bump_same, Hc. unfold rows_of_ticker.
        simpl. lia.
      * rewrite count_of_bump_other
          by (intros ->; rewrite String.eqb_refl in E; discriminate E).
        rewrite Hc. unfold rows_of_ticker. simpl. lia.
Qed.

End GroupByFacts.

(** C6.  Upsert is insert-or-replace keyed on [url], the last write
    winning: from any table, two committed saves of records with the same
    url leave exactly one row under that url, that row is the later record
    (so it carries the later title), and the second save leaves the row
    count where the first put it; a table with no two rows under one url
    stays so. *)
Theorem upsert_last_write_wins :
  forall (t : Db.Table) (c1 c2 : EarningsCall),
    url c1 = url c2 ->
    let t1 := Db.save_call Db.Committed t c1 in
    let t2 := Db.save_call Db.Committed t1 c2 in
    (exists r, Db.rows_with_url (url c2) t2 = [r] /\
               Db.data r = c2 /\ title (Db.data r) = title c2) /\
    Db.total (Db.get_stats t2) = Db.total (Db.get_stats t1) /\
    (url_unique t -> url_unique t2).
Proof.
  intros t c1 c2 Hu t1 t2. subst t1 t2. simpl.
  split; [|split].
  - eexists. split; [apply rows_with_url_insert|]. split; reflexivity.
  - rewrite !length_insert. f_equal.
    unfold Db.insert_or_replace at 1. rewrite filter_app, <- Hu.
    rewrite filter_other_idem. simpl.
    rewrite has_url_refl. simpl. rewrite length_app. simpl. lia.
  - intros H. apply url_unique_insert, url_unique_insert, H.
Qed.

Lemma upsert_last_write_wins_witness :
  let c1 := Fixture.call "https://ir.example.com/q1" "Q1 Webcast" in
  let c2 := Fixture.call "https://ir.example.com/q1" "Q1 Webcast (replay)" in
  let t2 := Db.save_call Db.Committed
              (Db.save_call Db.Committed (Db.init_db None) c1) c2 in
  (exists r, Db.rows_with_url "https://ir.example.com/q1" t2 = [r] /\
             Db.data r = c2 /\ title (Db.data r) = "Q1 Webcast (replay)") /\
  Db.total (Db.get_stats t2) = 1.
Proof.
  intros c1 c2 t2.
  destruct (upsert_last_write_wins (Db.init_db None) c1 c2 eq_refl)
    as [H1 [H2 _]].
  split; [exact H1 | exact H2].
Defined.

(** C8.  After any sequence of upserts, from any table, the per-ticker
    counts of the statistics add up to the total they report. *)
Theorem statistics_are_consistent :
  forall (t : Db.Table) (saves : list (Db.sqlite_outcome * EarningsCall)),
    let stats := Db.get_stats (Db.save_all t saves) in
    Db.sum_counts (Db.by_company stats) = Db.total stats.
Proof.
  intros t saves stats. subst stats. simpl. apply sum_counts_group.
Qed.

(* ===================================================================== *)
(** ** Page scan and frontier expansion *)
(* ===================================================================== *)

Section CrawlFacts.

Variable resolve : string -> string -> option string.
Variable urlparse : string -> option ParseResult.
Variable find_all_a : string -> list (string * string).

Local Open Scope list_scope.

Lemma log_requests_app (w : World) (l1 l2 : list (string * Z)) :
  log_requests (log_requests w l1) l2 = log_requests w (l1 ++ l2).
Proof. unfold log_requests. simpl. rewrite app_assoc. reflexivity. Qed.

(** The classifier sends no request. *)
Lemma analyze_link_offline href text page_url tk co w :
  requests (snd (_analyze_link resolve href text page_url tk co w))
  = requests w.
Proof.
  unfold _analyze_link.
  destruct (negb _); [reflexivity|].
  destruct (PyStr.re_search PyStr.match_year text) as [g|].
  - unfold bind, py_int. destruct (PyStr.int g); [|reflexivity].
    unfold ret. destruct (urljoin resolve page_url href); reflexivity.
  - unfold bind, datetime_now, ret.
    destruct (urljoin resolve page_url href); reflexivity.
Qed.

(** Nor does the loop over the anchors of a page. *)
Lemma scan_links_offline links page_url tk co calls w :
  requests (snd (scan_links resolve links page_url tk co calls w))
  = requests w.
Proof.
  revert calls w. induction links as [|[href text] links IH];
    intros calls w; simpl; [reflexivity|].
  unfold bind.
  pose proof (analyze_link_offline href text page_url tk co w) as Hw.
  destruct (_analyze_link resolve href text page_url tk co w)
    as [[call|e] w']; simpl in Hw.
  - rewrite IH. exact Hw.
  - exact Hw.
Qed.

(** A page scan sends its one request, with timeout 10. *)
Lemma scrape_page_requests page_url tk co w :
  requests (snd (_scrape_page resolve find_all_a page_url tk co w))
  = requests w ++ [(page_url, 10%Z)].
Proof.
  unfold _scrape_page, bind, session_get.
  destruct (server w (length (requests w)) page_url 10%Z)
    as [code body|e]; [|reflexivity].
  cbn [fst snd]. destruct (negb (code =? 200)%Z); [reflexivity|].
  rewrite scan_links_offline. reflexivity.
Qed.

(** A seed page that comes back with a status other than 200 gives the
    empty list. *)
Lemma scrape_page_not_200 page_url tk co w code body :
  server w (length (requests w)) page_url 10%Z = Reply code body ->
  code <> 200%Z ->
  _scrape_page resolve find_all_a page_url tk co w
  = (Ok [], log_requests w [(page_url, 10%Z)]).
Proof.
  intros Hs Hc. unfold _scrape_page, bind, session_get. rewrite Hs.
  cbn [fst snd]. apply Z.eqb_neq in Hc. rewrite Hc. reflexivity.
Qed.

(** A candidate whose probe does not come back with status 200 is passed
    over: the list of calls is as it was, and only the probe went out. *)
Lemma probe_event_url_skips event_url tk co calls w :
  fetch_fails w (length (requests w)) event_url 5%Z ->
  probe_event_url resolve find_all_a event_url tk co calls w
  = (Ok calls, log_requests w [(event_url, 5%Z)]).
Proof.
  unfold fetch_fails, probe_event_url, try_except, bind, session_get.
  destruct (server w (length (requests w)) event_url 5%Z)
    as [code body|e]; intros H; [|reflexivity].
  cbn [fst snd]. apply Z.eqb_neq in H. rewrite H. reflexivity.
Qed.

(** A candidate whose probe comes back with status 200 is scanned: the
    page is requested again, with the seed-page timeout, and the turn does
    not raise whatever that second request does. *)
Lemma probe_event_url_scans event_url tk co calls w body :
  server w (length (requests w)) event_url 5%Z = Reply 200 body ->
  exists calls' w',
    probe_event_url resolve find_all_a event_url tk co calls w
    = (Ok calls', w') /\
    requests w' = requests w ++ [(event_url, 5%Z); (event_url, 10%Z)].
Proof.
  intros Hs. unfold probe_event_url, try_except, bind at 1, session_get.
  rewrite Hs. cbn [fst snd Z.eqb Pos.eqb]. unfold bind.
  pose proof (scrape_page_requests event_url tk co
                (log_requests w [(event_url, 5%Z)])) as Hr.
  destruct (_scrape_page resolve find_all_a event_url tk co
              (log_requests w [(event_url, 5%Z)])) as [[page_calls|e] w'].
  - exists (calls ++ page_calls), w'. split; [reflexivity|].
    simpl in Hr. rewrite Hr, <- app_assoc. reflexivity.
  - exists calls, w'. split; [reflexivity|].
    simpl in Hr. rewrite Hr, <- app_assoc. reflexivity.
Qed.

(** When no candidate of the list answers with status 200, the loop
    probes every one of them in order and adds nothing. *)
Lemma probe_event_urls_all_fail urls tk co calls w :
  (forall k u, nth_error urls k = Some u ->
               fetch_fails w (length (requests w) + k) u 5%Z) ->
  probe_event_urls resolve find_all_a urls tk co calls w
  = (Ok calls, log_requests w (map (fun u => (u, 5%Z)) urls)).
Proof.
  revert w. induction urls as [|u urls IH]; intros w H; simpl.
  - unfold ret, log_requests. rewrite app_nil_r. destruct w; reflexivity.
  - unfold bind. rewrite probe_event_url_skips.
    + rewrite IH.
      * rewrite log_requests_app. reflexivity.
      * intros k u' Hk. specialize (H (S k) u' Hk).
        unfold fetch_fails, log_requests in *. simpl.
        rewrite length_app. simpl.
        replace (length (requests w) + 1 + k)
          with (length (requests w) + S k) by lia.
        exact H.
    + specialize (H 0 u eq_refl). rewrite Nat.add_0_r in H. exact H.
Qed.

End CrawlFacts.

(** C7.  When every guessed event-page url fails to fetch (the request
    raises a network error or a timeout, or comes back with a status that
    is not success), [_find_event_pages] returns the empty list and does
    not raise; each failing candidate is passed over and the next is
    probed, so that all five probes, and nothing else, have gone out.  The
    guessed urls are those built from the base url once [urlparse] has
    split it. *)
Theorem frontier_silent_when_all_candidates_fail :
  forall resolve urlparse find_all_a base_url ticker company_name w urls,
    event_urls urlparse base_url = Some urls ->
    (forall k u,
        nth_error urls k = Some u ->
        fetch_fails w (List.length (requests w) + k) u 5) ->
    _find_event_pages resolve urlparse find_all_a base_url ticker
      company_name w
    = (Ok [], log_requests w (map (fun u => (u, 5%Z)) urls))
    /\ List.length urls = 5.
Proof.
  intros resolve urlparse find_all_a base_url tk co w urls Hu H.
  unfold event_urls in Hu.
  destruct (urlparse base_url) as [parsed|] eqn:Hp; [|discriminate Hu].
  injection Hu as <-. split; [|reflexivity].
  unfold _find_event_pages, bind. rewrite Hp. cbn [or_value_error ret].
  apply probe_event_urls_all_fail. exact H.
Qed.

Lemma frontier_silent_when_all_candidates_fail_witness :
  _find_event_pages Fixture.resolve Fixture.urlparse Fixture.find_all_a
    "https://ir.example.com/investor-relations/default.aspx" "EX"
    "Example Corp" Fixture.flaky
  = (Ok [],
     log_requests Fixture.flaky
       [ ("https://ir.example.com/events", 5%Z);
         ("https://ir.example.com/events-and-presentations", 5%Z);
         ("https://ir.example.com/webcasts", 5%Z);
         ("https://ir.example.com/earnings", 5%Z);
         ("https://ir.example.com/investor-relations/events", 5%Z) ]).
Proof.
  refine (proj1 (frontier_silent_when_all_candidates_fail Fixture.resolve
                   Fixture.urlparse Fixture.find_all_a
                   "https://ir.example.com/investor-relations/default.aspx"
                   "EX" "Example Corp" Fixture.flaky _ eq_refl _)).
  intros k u _. unfold fetch_fails. cbn [Fixture.flaky server requests].
  destruct (Nat.even (length (@nil (string * Z)) + k));
    [exact I | discriminate].
Defined.

(** C10.  Only the status code 200 counts as success.  A frontier
    candidate whose probe comes back with any other status is passed over
    without being scanned (no second request, nothing added, the loop goes
    on with the next candidate), whereas status 200 has the page requested
    again and scanned; and a seed page that comes back with a status other
    than 200 makes the page scan return the empty list without raising. *)
Theorem only_status_200_is_success :
  forall resolve find_all_a u rest ticker company_name calls w code body,
    code <> 200%Z ->
    (server w (List.length (requests w)) u 5 = Reply code body ->
     probe_event_url resolve find_all_a u ticker company_name calls w
       = (Ok calls, log_requests w [(u, 5%Z)]) /\
     probe_event_urls resolve find_all_a (u :: rest) ticker company_name
       calls w
       = probe_event_urls resolve find_all_a rest ticker company_name
           calls (log_requests w [(u, 5%Z)])) /\
    (server w (List.length (requests w)) u 5 = Reply 200 body ->
     exists calls' w',
       probe_event_url resolve find_all_a u ticker company_name calls w
         = (Ok calls', w') /\
       requests w' = (requests w ++ [(u, 5%Z); (u, 10%Z)])%list) /\
    (server w (List.length (requests w)) u 10 = Reply code body ->
     _scrape_page resolve find_all_a u ticker company_name w
       = (Ok [], log_requests w [(u, 10%Z)])).
Proof.
  intros resolve find_all_a u rest tk co calls w code body Hc.
  split; [|split].
  - intros Hs.
    assert (probe_event_url resolve find_all_a u tk co calls w
            = (Ok calls, log_requests w [(u, 5%Z)])) as E.
    { apply probe_event_url_skips. unfold fetch_fails. rewrite Hs.
      exact Hc. }
    split; [exact E|]. simpl. unfold bind. rewrite E. reflexivity.
  - apply probe_event_url_scans.
  - intros Hs. apply scrape_page_not_200 with (code := code) (body := body);
      assumption.
Qed.

Lemma only_status_200_is_success_witness :
  _scrape_page Fixture.resolve Fixture.find_all_a
    "https://ir.example.com/" "EX" "Example Corp" Fixture.no_content
  = (Ok [], log_requests Fixture.no_content
              [("https://ir.example.com/", 10%Z)]).
Proof.
  apply (proj2 (proj2 (only_status_200_is_success Fixture.resolve
                         Fixture.find_all_a "https://ir.example.com/" []
                         "EX" "Example Corp" [] Fixture.no_content
                         204%Z "" ltac:(discriminate)))).
  reflexivity.
Defined.

(* ===================================================================== *)
(** ** More on the link classifier *)
(* ===================================================================== *)

Section CaseFacts.

Import PyStr.

Local Ltac ascii_cases c := destruct c as [[] [] [] [] [] [] [] []].

Lemma lower_char_idem (c : ascii) : lower_char (lower_char c) = lower_char c.
Proof. ascii_cases c; reflexivity. Qed.

Lemma lower_idem (s : string) : lower (lower s) = lower s.
Proof.
  induction s as [|c s IH]; simpl; [reflexivity|].
  rewrite lower_char_idem, IH. reflexivity.
Qed.

Lemma eqb_2_lower (c : ascii) :
  Ascii.eqb (lower_char c) "2" = Ascii.eqb c "2".
Proof. ascii_cases c; reflexivity. Qed.

Lemma eqb_0_lower (c : ascii) :
  Ascii.eqb (lower_char c) "0" = Ascii.eqb c "0".
Proof. ascii_cases c; reflexivity. Qed.

Lemma isdigit_lower (c : ascii) : isdigit (lower_char c) = isdigit c.
Proof. ascii_cases c; reflexivity. Qed.

Lemma lower_char_digit (c : ascii) : isdigit c = true -> lower_char c = c.
Proof.
  ascii_cases c; vm_compute; intros H;
    first [ discriminate H | reflexivity ].
Qed.

(** Lower-casing moves no digit: the year pattern matches the same. *)
Lemma match_year_lower (s : string) :
  match_year (lower s) = match_year s.
Proof.
  destruct s as [|a [|b [|c [|d t]]]]; try reflexivity.
  cbn [lower match_year].
  rewrite eqb_2_lower, eqb_0_lower, !isdigit_lower.
  destruct (Ascii.eqb a "2") eqn:Ea; [|reflexivity].
  destruct (Ascii.eqb b "0") eqn:Eb; [|reflexivity].
  destruct (isdigit c) eqn:Ec; [|reflexivity].
  destruct (isdigit d) eqn:Ed; [|reflexivity].
  cbn [andb].
  apply Ascii.eqb_eq in Ea, Eb. subst a b.
  rewrite (lower_char_digit c Ec), (lower_char_digit d Ed). reflexivity.
Qed.

Lemma search_year_lower (s : string) :
  re_search match_year (lower s) = re_search match_year s.
Proof.
  induction s as [|c s IH]; [reflexivity|].
  change (lower (String c s)) with (String (lower_char c) (lower s)) at 1.
  cbn [re_search].
  change (String (lower_char c) (lower s)) with (lower (String c s)).
  rewrite match_year_lower, IH. reflexivity.
Qed.

(** A two-letter keyword occurs in [s] exactly where its letters stand
    side by side. *)
Lemma substring_of_pair (a b : ascii) (s : string) :
  substring_of (String a (String b "")) s <->
  exists i, get i s = Some a /\ get (S i) s = Some b.
Proof.
  split.
  - intros [pre [post ->]]. exists (String.length pre).
    induction pre as [|c pre IH]; simpl; [split; reflexivity | exact IH].
  - intros [i [Ha Hb]]. revert s Ha Hb.
    induction i as [|i IH]; intros s Ha Hb.
    + destruct s as [|x [|y t]]; simpl in Ha, Hb; try discriminate.
      injection Ha as ->. injection Hb as ->.
      exists "", t. reflexivity.
    + destruct s as [|x t]; [discriminate Ha|]. simpl in Ha, Hb.
      destruct (IH t Ha Hb) as [pre [post ->]].
      exists (String x pre), post. reflexivity.
Qed.

End CaseFacts.

Section ClassifierWorld.

Import PyStr.

Variable resolve : string -> string -> option string.

(** What a classification that returns a record does to the world: no
    request, one reading of the clock when the text carries a year, two
    when it does not. *)
Lemma analyze_link_clock href text page_url tk co w r w' :
  _analyze_link resolve href text page_url tk co w = (Ok (Some r), w') ->
  server w' = server w /\ requests w' = requests w /\ clock w' = clock w /\
  match re_search match_year text with
  | Some _ =>
      clock_reads w' = S (clock_reads w) /\
      discovered_at r = isoformat (clock w (clock_reads w))
  | None =>
      clock_reads w' = S (S (clock_reads w)) /\
      year r = dt_year (clock w (clock_reads w)) /\
      discovered_at r = isoformat (clock w (S (clock_reads w)))
  end.
Proof.
  unfold _analyze_link.
  destruct (negb (any_in earnings_keywords (lower text)));
    [discriminate|].
  destruct (re_search match_year text) as [g|].
  - unfold bind, py_int. destruct (int g); [|discriminate].
    unfold ret. destruct (urljoin resolve page_url href); [|discriminate].
    unfold or_value_error, ret, datetime_now.
    intros H. injection H as <- <-.
    simpl. repeat split; reflexivity.
  - unfold bind, datetime_now, ret.
    destruct (urljoin resolve page_url href); [|discriminate].
    unfold or_value_error, ret.
    intros H. injection H as <- <-.
    simpl. repeat split; reflexivity.
Qed.

Lemma year_at_bounds (s : string) (i : nat) (y : Z) :
  year_at s i y -> (2000 <= y <= 2099)%Z.
Proof.
  intros [c [d [_ [_ [_ [_ [Hc [Hd ->]]]]]]]].
  unfold decimal_digit in Hc, Hd. simpl in Hc, Hd.
  assert (48 <= Z.of_N (N_of_ascii c) <= 57)%Z as Bc
    by (repeat (destruct Hc as [<- | Hc]; [vm_compute; split; discriminate|]);
        destruct Hc).
  assert (48 <= Z.of_N (N_of_ascii d) <= 57)%Z as Bd
    by (repeat (destruct Hd as [<- | Hd]; [vm_compute; split; discriminate|]);
        destruct Hd).
  lia.
Qed.

End ClassifierWorld.

(** X1.  Classification looks at the letters of the anchor text and of the
    href up to case only: two anchors whose texts have the same lower-case
    form, and whose hrefs have too, are both rejected or both accepted at
    one moment, and the two records agree on quarter, year, call type and
    time stamp. *)
Theorem classification_ignores_letter_case :
  forall resolve href href' text text' page_url ticker company_name w,
    PyStr.lower text = PyStr.lower text' ->
    PyStr.lower href = PyStr.lower href' ->
    let a := fst (_analyze_link resolve href text page_url ticker
                    company_name w) in
    let b := fst (_analyze_link resolve href' text' page_url ticker
                    company_name w) in
    (a = Ok None <-> b = Ok None) /\
    forall r r',
      a = Ok (Some r) -> b = Ok (Some r') ->
      quarter r = quarter r' /\ year r = year r' /\
      call_type r = call_type r' /\ discovered_at r = discovered_at r'.
Proof.
  intros resolve href href' text text' page_url tk co w Ht Hh a b.
  subst a b. split.
  - rewrite !analyze_link_none, Ht. tauto.
  - intros r r' E E'.
    destruct (analyze_link_inv resolve _ _ _ _ _ _ _ E)
      as [_ [Hq [Hy [Hn Hc]]]].
    destruct (analyze_link_inv resolve _ _ _ _ _ _ _ E')
      as [_ [Hq' [Hy' [Hn' Hc']]]].
    destruct (_analyze_link resolve href text page_url tk co w)
      as [o w1] eqn:R. simpl in E. subst o.
    destruct (_analyze_link resolve href' text' page_url tk co w)
      as [o w1'] eqn:R'. simpl in E'. subst o.
    destruct (analyze_link_clock resolve _ _ _ _ _ _ _ _ R)
      as [_ [_ [_ Hk]]].
    destruct (analyze_link_clock resolve _ _ _ _ _ _ _ _ R')
      as [_ [_ [_ Hk']]].
    assert (PyStr.re_search PyStr.match_year text
            = PyStr.re_search PyStr.match_year text') as Hs
      by (rewrite <- (search_year_lower text), <- (search_year_lower text'),
            Ht; reflexivity).
    rewrite <- Hs in Hy', Hn', Hk'.
    split; [rewrite Hq, Hq', Ht; reflexivity|].
    split; [|split].
    + destruct (PyStr.re_search PyStr.match_year text) as [g|].
      * specialize (Hy g eq_refl). specialize (Hy' g eq_refl). congruence.
      * rewrite Hn, Hn'; reflexivity.
    + rewrite Hc, Hc'. unfold determine_call_type. rewrite Ht, Hh.
      reflexivity.
    + destruct (PyStr.re_search PyStr.match_year text).
      * destruct Hk as [_ ->]. destruct Hk' as [_ ->]. reflexivity.
      * destruct Hk as [_ [_ ->]]. destruct Hk' as [_ [_ ->]]. reflexivity.
Qed.

Lemma classification_ignores_letter_case_witness :
  exists r r',
    fst (_analyze_link Fixture.resolve "https://ir.example.com/Q2.MP3"
           "Q2 Earnings Call" "https://ir.example.com/" "EX" "Example Corp"
           Fixture.offline) = Ok (Some r) /\
    fst (_analyze_link Fixture.resolve "https://ir.example.com/q2.mp3"
           "q2 earnings call" "https://ir.example.com/" "EX" "Example Corp"
           Fixture.offline) = Ok (Some r') /\
    quarter r = quarter r' /\ year r = year r' /\
    call_type r = call_type r' /\ discovered_at r = discovered_at r'.
Proof.
  eexists. eexists. split; [reflexivity|]. split; [reflexivity|].
  apply (proj2 (classification_ignores_letter_case Fixture.resolve
                  "https://ir.example.com/Q2.MP3"
                  "https://ir.example.com/q2.mp3"
                  "Q2 Earnings Call" "q2 earnings call"
                  "https://ir.example.com/" "EX" "Example Corp"
                  Fixture.offline eq_refl eq_refl) _ _ eq_refl eq_refl).
Defined.

(** X2.  Every record the classifier returns has its quarter among Q1,
    Q2, Q3, Q4 and Unknown, and its year either between 2000 and 2099 or
    equal to the year the clock shows at the call. *)
Theorem quarter_and_year_ranges :
  forall resolve href text page_url ticker company_name w r,
    fst (_analyze_link resolve href text page_url ticker company_name w)
      = Ok (Some r) ->
    In (quarter r) [ "Q1"; "Q2"; "Q3"; "Q4"; "Unknown" ] /\
    ((2000 <= year r <= 2099)%Z \/
     year r = dt_year (clock w (clock_reads w))).
Proof.
  intros resolve href text page_url tk co w r E.
  destruct (analyze_link_inv resolve _ _ _ _ _ _ _ E)
    as [_ [Hq [Hy [Hn _]]]].
  split.
  - rewrite Hq.
    destruct (PyStr.re_search PyStr.match_quarter (PyStr.lower text))
      as [g|] eqn:Es; [|simpl; tauto].
    destruct (search_quarter_some _ _ Es) as [i [d [-> [[_ [_ Hd]] _]]]].
    simpl in Hd. destruct Hd as [<- | [<- | [<- | [<- | []]]]];
      simpl; tauto.
  - destruct (PyStr.re_search PyStr.match_year text) as [g|] eqn:Es.
    + left. destruct (search_year_some _ _ Es) as [i [y [Hint [Hat _]]]].
      specialize (Hy g eq_refl).
      assert (year r = y) by congruence. subst y.
      exact (year_at_bounds _ _ _ Hat).
    + right. apply Hn. reflexivity.
Qed.

Lemma quarter_and_year_ranges_witness :
  exists r,
    fst (_analyze_link Fixture.resolve "https://ir.example.com/x"
           "q10 results webcast 20999" "https://ir.example.com/" "EX"
           "Example Corp" Fixture.offline) = Ok (Some r) /\
    quarter r = "Q1" /\ year r = 2099%Z /\
    In (quarter r) [ "Q1"; "Q2"; "Q3"; "Q4"; "Unknown" ].
Proof.
  eexists. split; [reflexivity|]. split; [reflexivity|].
  split; [reflexivity|].
  apply (proj1 (quarter_and_year_ranges Fixture.resolve
                  "https://ir.example.com/x" "q10 results webcast 20999"
                  "https://ir.example.com/" "EX" "Example Corp"
                  Fixture.offline _ eq_refl)).
Defined.

(** X3.  A record has quarter "Unknown" exactly when none of the keywords
    q1, q2, q3, q4 occurs in the lower-cased anchor text; such a record
    therefore got through the filter on one of the six phrase keywords. *)
Theorem unknown_quarter_came_in_on_a_phrase :
  forall resolve href text page_url ticker company_name w r,
    fst (_analyze_link resolve href text page_url ticker company_name w)
      = Ok (Some r) ->
    (quarter r = "Unknown" <->
     forall kw, In kw [ "q1"; "q2"; "q3"; "q4" ] ->
                ~ PyStr.substring_of kw (PyStr.lower text)) /\
    (quarter r = "Unknown" ->
     some_keyword_in
       [ "earnings call"; "quarterly results"; "conference call";
         "webcast"; "financial results"; "investor call" ]
       (PyStr.lower text)).
Proof.
  intros resolve href text page_url tk co w r E.
  destruct (analyze_link_inv resolve _ _ _ _ _ _ _ E)
    as [Hk [Hq _]].
  assert (quarter r = "Unknown" <->
          forall kw, In kw [ "q1"; "q2"; "q3"; "q4" ] ->
                     ~ PyStr.substring_of kw (PyStr.lower text)) as Hiff.
  { rewrite Hq.
    destruct (PyStr.re_search PyStr.match_quarter (PyStr.lower text))
      as [g|] eqn:Es.
    - destruct (search_quarter_some _ _ Es) as [i [d [-> [[Ha [Hb Hd]] _]]]].
      split; [discriminate|]. intros Hno. exfalso.
      assert (PyStr.substring_of (String "q" (String d ""))
                (PyStr.lower text)) as Hsub
        by (apply substring_of_pair; exists i; split; assumption).
      apply (Hno (String "q" (String d ""))); [|exact Hsub].
      simpl in Hd. destruct Hd as [<- | [<- | [<- | [<- | []]]]];
        simpl; tauto.
    - split; [|reflexivity]. intros _ kw Hin Hsub.
      simpl in Hin.
      destruct Hin as [<- | [<- | [<- | [<- | []]]]];
        apply substring_of_pair in Hsub; destruct Hsub as [i [Ha Hb]];
        (eapply (search_quarter_none _ Es i);
         split; [exact Ha | split; [exact Hb | simpl; tauto]]). }
  split; [exact Hiff|].
  intros Hu. apply any_in_spec in Hk. destruct Hk as [kw [Hin Hsub]].
  exists kw. split; [|exact Hsub].
  pose proof (proj1 Hiff Hu kw) as Hno.
  unfold earnings_keywords in Hin. simpl in Hin. simpl.
  destruct Hin as [<- | [<- | [<- | [<- | [<- | [<- | Hin]]]]]];
    try tauto;
    try (exfalso; apply Hno; [simpl; tauto | exact Hsub]).
Qed.

Lemma unknown_quarter_came_in_on_a_phrase_witness :
  some_keyword_in
    [ "earnings call"; "quarterly results"; "conference call";
      "webcast"; "financial results"; "investor call" ]
    (PyStr.lower "Annual Meeting Webcast").
Proof.
  apply (proj2 (unknown_quarter_came_in_on_a_phrase Fixture.resolve
                  "https://ir.example.com/agm" "Annual Meeting Webcast"
                  "https://ir.example.com/" "EX" "Example Corp"
                  Fixture.offline _ eq_refl)).
  reflexivity.
Defined.

(** X4.  The classifier sends no request.  Rejecting an anchor leaves the
    world as it was.  Accepting one reads the clock once when the text
    carries a year, and [discovered_at] is that reading; when the text
    carries none it reads the clock twice, the year being taken from the
    first reading and [discovered_at] from the second. *)
Theorem classifier_clock_readings :
  forall resolve href text page_url ticker company_name w,
    let run := _analyze_link resolve href text page_url ticker
                 company_name w in
    requests (snd run) = requests w /\
    (fst run = Ok None -> snd run = w) /\
    forall r,
      fst run = Ok (Some r) ->
      ((exists i y, year_at text i y) ->
       clock_reads (snd run) = 1 + clock_reads w /\
       discovered_at r = isoformat (clock w (clock_reads w))) /\
      ((forall i y, ~ year_at text i y) ->
       clock_reads (snd run) = 2 + clock_reads w /\
       year r = dt_year (clock w (clock_reads w)) /\
       discovered_at r = isoformat (clock w (1 + clock_reads w))).
Proof.
  intros resolve href text page_url tk co w run. subst run.
  split; [apply analyze_link_offline|]. split.
  - intros E. apply analyze_link_none in E.
    rewrite analyze_link_filtered by exact E. reflexivity.
  - intros r Er.
    destruct (_analyze_link resolve href text page_url tk co w)
      as [o w1] eqn:E.
    cbn [fst snd] in *. subst o.
    destruct (analyze_link_clock resolve _ _ _ _ _ _ _ _ E)
      as [_ [_ [_ Hk]]].
    destruct (PyStr.re_search PyStr.match_year text) as [g|] eqn:Es.
    + split; [intros _; exact Hk|].
      intros Hno. exfalso.
      destruct (search_year_some _ _ Es) as [i [y [_ [Hat _]]]].
      exact (Hno i y Hat).
    + split; [|intros _; exact Hk].
      intros [i [y Hat]]. exfalso.
      exact (search_year_none _ Es i y Hat).
Qed.

Lemma classifier_clock_readings_witness :
  exists r,
    fst (_analyze_link Fixture.resolve "https://ir.example.com/agm"
           "Annual Meeting Webcast" "https://ir.example.com/" "EX"
           "Example Corp" Fixture.new_year) = Ok (Some r) /\
    year r = 2024%Z /\ discovered_at r = "2025-01-01T00:00:00.000012".
Proof.
  eexists. split; [reflexivity|].
  refine (proj2 (proj2 (proj2 (proj2 (classifier_clock_readings
            Fixture.resolve "https://ir.example.com/agm"
            "Annual Meeting Webcast" "https://ir.example.com/" "EX"
            "Example Corp" Fixture.new_year)) _ eq_refl) _)).
  intros i y [c [d [Ha _]]].
  do 22 (destruct i as [|i]; [discriminate Ha|]).
  destruct i; discriminate Ha.
Defined.

(* ===================================================================== *)
(** ** More on the page scan and the frontier *)
(* ===================================================================== *)

Section ScanFacts.

Variable resolve : string -> string -> option string.
Variable urlparse : string -> option ParseResult.
Variable find_all_a : string -> list (string * string).

Local Open Scope list_scope.

(** The classifier leaves the server as it is. *)
Lemma analyze_link_server href text page_url tk co w :
  server (snd (_analyze_link resolve href text page_url tk co w))
  = server w.
Proof.
  unfold _analyze_link.
  destruct (negb _); [reflexivity|].
  destruct (PyStr.re_search PyStr.match_year text) as [g|].
  - unfold bind, py_int. destruct (PyStr.int g); [|reflexivity].
    unfold ret. destruct (urljoin resolve page_url href); reflexivity.
  - unfold bind, datetime_now, ret.
    destruct (urljoin resolve page_url href); reflexivity.
Qed.

(** The loop over the anchors sends no request.  When [urljoin] takes the
    href of every accepted anchor it returns, having appended one record
    for each accepted anchor, in order; when it rejects one, the loop
    raises [ValueError]. *)
Lemma scan_links_run links page tk co calls w :
  requests (snd (scan_links resolve links page tk co calls w)) = requests w /\
  server (snd (scan_links resolve links page tk co calls w)) = server w /\
  if forallb (resolves resolve page) (filter accepted links)
  then exists new,
         fst (scan_links resolve links page tk co calls w)
           = Ok (calls ++ new) /\
         map link_in new = map (link_of resolve page) (filter accepted links) /\
         Forall (made_on page tk co) new
  else fst (scan_links resolve links page tk co calls w) = Raised ValueError.
Proof.
  revert calls w.
  induction links as [|[href text] links IH]; intros calls w.
  - simpl. split; [reflexivity|]. split; [reflexivity|].
    exists []. rewrite app_nil_r.
    split; [reflexivity|]. split; [reflexivity | constructor].
  - cbn [scan_links filter]. unfold bind.
    change (accepted (href, text))
      with (PyStr.any_in earnings_keywords (PyStr.lower text)).
    pose proof (analyze_link_offline resolve href text page tk co w) as Hreq.
    pose proof (analyze_link_server href text page tk co w) as Hsrv.
    destruct (PyStr.any_in earnings_keywords (PyStr.lower text)) eqn:H.
    + cbn [forallb]. unfold resolves at 1. cbn [fst].
      destruct (urljoin resolve page href) as [u|] eqn:Hu.
      * destruct (analyze_link_record resolve href text page tk co w u H Hu)
          as [r [w1 [E [_ [_ [_ [_ [Ht [Hurl [Hp [Hk Hc]]]]]]]]]]].
        rewrite E in *. cbn [fst snd] in *.
        destruct (IH (calls ++ [r]) w1) as [Hr' [Hs' Hrun]].
        split; [congruence|]. split; [congruence|].
        cbn [andb].
        destruct (forallb (resolves resolve page) (filter accepted links)).
        -- destruct Hrun as [new [E' [Hm Hf]]].
           exists (r :: new). rewrite E', <- app_assoc.
           split; [reflexivity|]. split.
           ++ cbn [map]. rewrite Hm.
              replace (link_in r) with (link_of resolve page (href, text));
                [reflexivity|].
              unfold link_in, link_of. cbn [fst snd].
              rewrite Hu, Hurl, Ht. reflexivity.
           ++ constructor; [|exact Hf]. unfold made_on. auto.
        -- exact Hrun.
      * pose proof (analyze_link_rejected resolve href text page tk co w
                      H Hu) as E.
        destruct (_analyze_link resolve href text page tk co w) as [o w1].
        cbn [fst snd] in *. subst o. cbn [fst snd andb].
        split; [exact Hreq|]. split; [exact Hsrv | reflexivity].
    + rewrite analyze_link_filtered by exact H. apply IH.
Qed.

(** A page scan sends its one request.  It raises with the request, or
    with [urljoin] on an accepted anchor of a page that came back with
    status 200; otherwise it returns the records of the page. *)
Lemma scrape_page_run page tk co w :
  server (snd (_scrape_page resolve find_all_a page tk co w)) = server w /\
  requests (snd (_scrape_page resolve find_all_a page tk co w))
    = requests w ++ [(page, 10%Z)] /\
  match server w (length (requests w)) page 10%Z with
  | Failure e =>
      fst (_scrape_page resolve find_all_a page tk co w) = Raised e
  | Reply code body =>
      if (code =? 200)%Z
      then if forallb (resolves resolve page)
                (filter accepted (find_all_a body))
           then exists calls,
                  fst (_scrape_page resolve find_all_a page tk co w)
                    = Ok calls /\
                  map link_in calls
                    = map (link_of resolve page)
                          (filter accepted (find_all_a body)) /\
                  Forall (made_on page tk co) calls
           else fst (_scrape_page resolve find_all_a page tk co w)
                = Raised ValueError
      else fst (_scrape_page resolve find_all_a page tk co w) = Ok []
  end.
Proof.
  unfold _scrape_page, bind, session_get.
  destruct (server w (length (requests w)) page 10%Z) as [code body|e].
  - cbn [fst snd]. destruct (code =? 200)%Z; cbn [negb].
    + destruct (scan_links_run (find_all_a body) page tk co []
                  (log_requests w [(page, 10%Z)])) as [Hr [Hs Hrun]].
      split; [exact Hs|]. split; [exact Hr|].
      destruct (forallb (resolves resolve page)
                  (filter accepted (find_all_a body))); exact Hrun.
    + split; [reflexivity|]. split; reflexivity.
  - cbn [fst snd]. split; [reflexivity|]. split; reflexivity.
Qed.

(** What a page scan returns was made on that page. *)
Lemma scrape_page_made_on page tk co w calls :
  fst (_scrape_page resolve find_all_a page tk co w) = Ok calls ->
  Forall (made_on page tk co) calls.
Proof.
  intros E. destruct (scrape_page_run page tk co w) as [_ [_ Hm]].
  destruct (server w (length (requests w)) page 10%Z) as [code body|e].
  - destruct (code =? 200)%Z.
    + destruct (forallb (resolves resolve page)
                  (filter accepted (find_all_a body))).
      * destruct Hm as [calls' [E' [_ Hf]]]. congruence.
      * congruence.
    + rewrite Hm in E. injection E as <-. constructor.
  - congruence.
Qed.

(** One turn of the frontier loop returns, whatever the network does and
    whatever the page holds; it sends the probe and, after a probe answered
    with status 200, the request for the page. *)
Lemma probe_event_url_run u tk co calls w :
  exists new w' (scanned : bool),
    probe_event_url resolve find_all_a u tk co calls w
      = (Ok (calls ++ new), w') /\
    server w' = server w /\
    Forall (made_on u tk co) new /\
    requests w'
      = requests w ++ (u, 5%Z) :: (if scanned then [(u, 10%Z)] else []) /\
    (scanned = false -> new = []).
Proof.
  unfold probe_event_url, try_except, bind at 1, session_get.
  destruct (server w (length (requests w)) u 5%Z) as [code body|e].
  - cbn [fst snd]. destruct (code =? 200)%Z.
    + unfold bind.
      destruct (scrape_page_run u tk co (log_requests w [(u, 5%Z)]))
        as [Hs [Hr _]].
      pose proof (scrape_page_made_on u tk co (log_requests w [(u, 5%Z)]))
        as Hf.
      destruct (_scrape_page resolve find_all_a u tk co
                  (log_requests w [(u, 5%Z)])) as [[page_calls|e] w'].
      * exists page_calls, w', true. cbn [fst snd] in *.
        split; [reflexivity|]. split; [exact Hs|].
        split; [apply Hf; reflexivity|].
        split; [|discriminate].
        rewrite Hr. simpl. rewrite <- app_assoc. reflexivity.
      * exists [], w', true. cbn [fst snd] in *. rewrite app_nil_r.
        split; [reflexivity|]. split; [exact Hs|].
        split; [constructor|].
        split; [|discriminate].
        rewrite Hr. simpl. rewrite <- app_assoc. reflexivity.
    + exists [], (log_requests w [(u, 5%Z)]), false. rewrite app_nil_r.
      split; [reflexivity|]. split; [reflexivity|].
      split; [constructor|]. split; reflexivity.
  - exists [], (log_requests w [(u, 5%Z)]), false. rewrite app_nil_r.
    split; [reflexivity|]. split; [reflexivity|].
    split; [constructor|]. split; reflexivity.
Qed.

(** The frontier loop returns; its requests are, candidate by candidate
    and in order, the probe and then at most one request for the page. *)
Lemma probe_event_urls_run urls tk co calls w :
  exists new w' scanned,
    probe_event_urls resolve find_all_a urls tk co calls w
      = (Ok (calls ++ new), w') /\
    server w' = server w /\
    length scanned = length urls /\
    requests w' = requests w ++ probe_log urls scanned /\
    Forall (fun c => exists u, In u urls /\ made_on u tk co c) new.
Proof.
  revert calls w. induction urls as [|u urls IH]; intros calls w.
  - exists [], w, []. simpl. rewrite !app_nil_r.
    split; [reflexivity|]. split; [reflexivity|].
    split; [reflexivity|]. split; [reflexivity | constructor].
  - cbn [probe_event_urls]. unfold bind.
    destruct (probe_event_url_run u tk co calls w)
      as [new1 [w1 [b [E1 [Hs1 [Hf1 [Hr1 _]]]]]]].
    rewrite E1.
    destruct (IH (calls ++ new1) w1)
      as [new2 [w2 [bs [E2 [Hs2 [Hl2 [Hr2 Hf2]]]]]]].
    rewrite E2.
    exists (new1 ++ new2), w2, (b :: bs). rewrite app_assoc.
    split; [reflexivity|]. split; [congruence|].
    split; [cbn [length]; congruence|].
    split.
    + rewrite Hr2, Hr1. cbn [probe_log]. rewrite <- !app_assoc.
      reflexivity.
    + apply Forall_app. split.
      * eapply Forall_impl; [|exact Hf1].
        intros c Hc. exists u. split; [left; reflexivity | exact Hc].
      * eapply Forall_impl; [|exact Hf2].
        intros c [u0 [Hu0 Hc]]. exists u0. split; [right|]; assumption.
Qed.

(** [_find_event_pages] raises when [urlparse] rejects the base url, and
    only then. *)
Lemma find_event_pages_run base_url tk co w :
  match urlparse base_url with
  | None =>
      _find_event_pages resolve urlparse find_all_a base_url tk co w
      = (Raised ValueError, w)
  | Some parsed =>
      exists calls w' scanned,
        _find_event_pages resolve urlparse find_all_a base_url tk co w
          = (Ok calls, w') /\
        server w' = server w /\
        length scanned = 5 /\
        requests w' = requests w ++ probe_log (event_urls_of parsed) scanned /\
        Forall (fun c => exists u, In u (event_urls_of parsed) /\
                                   made_on u tk co c) calls
  end.
Proof.
  unfold _find_event_pages, bind.
  destruct (urlparse base_url) as [parsed|]; [|reflexivity].
  cbn [or_value_error ret].
  destruct (probe_event_urls_run (event_urls_of parsed) tk co [] w)
    as [new [w' [scanned [E [Hs [Hl [Hr Hf]]]]]]].
  exists new, w', scanned. rewrite E.
  split; [reflexivity|]. split; [exact Hs|]. split; [exact Hl|].
  split; assumption.
Qed.

End ScanFacts.





(** X7.  [_find_event_pages] raises exactly when [urlparse] rejects the
    base url: the [ValueError] arrives before the loop, and no request has
    gone out.  Once the candidates are built it never raises, whatever the
    network does and whatever the pages hold, and its requests are,
    candidate by candidate in the order of the list, the probe with
    timeout 5 followed by at most one request for the same candidate with
    timeout 10. *)
Theorem frontier_raises_only_on_its_base_url :
  forall resolve urlparse find_all_a base_url ticker company_name w,
    match event_urls urlparse base_url with
    | None =>
        _find_event_pages resolve urlparse find_all_a base_url ticker
          company_name w = (Raised ValueError, w)
    | Some urls =>
        exists calls w' scanned,
          _find_event_pages resolve urlparse find_all_a base_url ticker
            company_name w = (Ok calls, w') /\
          List.length urls = 5 /\ List.length scanned = 5 /\
          requests w' = (requests w ++ probe_log urls scanned)%list
    end.
Proof.
  intros resolve urlparse find_all_a base_url tk co w.
  pose proof (find_event_pages_run resolve urlparse find_all_a
                base_url tk co w) as H.
  unfold event_urls. destruct (urlparse base_url) as [parsed|]; cbn [option_map].
  - destruct H as [calls [w' [scanned [E [_ [Hl [Hr _]]]]]]].
    exists calls, w', scanned. split; [exact E|].
    split; [reflexivity|]. split; assumption.
  - exact H.
Qed.

(** X8.  Every record the frontier expansion returns was found on one of
    the five candidate pages, which is its [found_on_page], and carries the
    ticker and the company name of the call. *)
Theorem frontier_records_come_from_candidates :
  forall resolve urlparse find_all_a base_url tk co w,
    Forall (fun c =>
              (exists urls,
                  event_urls urlparse base_url = Some urls /\
                  In (found_on_page c) urls) /\
              ticker c = tk /\ company c = co)
           match fst (_find_event_pages resolve urlparse find_all_a base_url
                        tk co w) with
           | Ok calls => calls
           | Raised _ => []
           end.
Proof.
  intros resolve urlparse find_all_a base_url tk co w.
  pose proof (find_event_pages_run resolve urlparse find_all_a
                base_url tk co w) as H.
  unfold event_urls. destruct (urlparse base_url) as [parsed|].
  - destruct H as [calls [w' [scanned [E [_ [_ [_ Hf]]]]]]].
    rewrite E. cbn [fst option_map].
    eapply Forall_impl; [|exact Hf].
    intros c [u [Hu [Hp [Ht Hc]]]]. rewrite Hp.
    split; [|auto]. exists (event_urls_of parsed). auto.
  - rewrite H. constructor.
Qed.



(* ===================================================================== *)
(** ** More on the record store *)
(* ===================================================================== *)

Section StoreFacts.

Import Db.

Local Open Scope list_scope.

Lemma save_all_app (t : Table) (s1 s2 : list (sqlite_outcome * EarningsCall)) :
  save_all t (s1 ++ s2) = save_all (save_all t s1) s2.
Proof. unfold save_all. apply fold_left_app. Qed.

Lemma rows_with_url_save_other (o : sqlite_outcome) (t : Table)
  (c : EarningsCall) (u : string) :
  u <> url c -> rows_with_url u (save_call o t c) = rows_with_url u t.
Proof.
  intros H. destruct o; simpl; [|reflexivity].
  apply rows_with_url_insert_other. exact H.
Qed.

(** Saves under other urls, and saves that fail, leave the rows of [u]
    alone. *)
Lemma rows_with_url_save_all_other (u : string) saves (t : Table) :
  (forall c, In c (committed saves) -> url c <> u) ->
  rows_with_url u (save_all t saves) = rows_with_url u t.
Proof.
  revert t. induction saves as [|[o c] saves IH]; intros t H;
    [reflexivity|].
  change (save_all t ((o, c) :: saves))
    with (save_all (save_call o t c) saves).
  rewrite IH.
  - destruct o; [|reflexivity].
    apply rows_with_url_insert_other. apply not_eq_sym, H.
    unfold committed. simpl. left. reflexivity.
  - intros c' Hin. apply H. unfold committed in *. simpl.
    destruct o; simpl; [right|]; exact Hin.
Qed.

Lemma urls_insert (t : Table) (c : EarningsCall) (u : string) :
  In u (map (fun r => url (data r)) (insert_or_replace t c)) <->
  u = url c \/ In u (map (fun r => url (data r)) t).
Proof.
  unfold insert_or_replace. rewrite map_app, in_app_iff. simpl.
  rewrite !in_map_iff. split.
  - intros [[r [Hu Hin]] | [H | []]]; [|left; congruence].
    apply filter_In in Hin. right. exists r. tauto.
  - intros [-> | [r [Hu Hin]]]; [right; left; reflexivity|].
    destruct (String.eqb_spec (url (data r)) (url c)) as [E | N].
    + right. left. congruence.
    + left. exists r. split; [exact Hu|]. apply filter_In.
      split; [exact Hin|]. unfold has_url.
      apply String.eqb_neq in N. rewrite N. reflexivity.
Qed.

Lemma urls_save_all saves (t : Table) (u : string) :
  In u (map (fun r => url (data r)) (save_all t saves)) <->
  In u (map (fun r => url (data r)) t) \/ In u (map url (committed saves)).
Proof.
  revert t. induction saves as [|[o c] saves IH]; intros t.
  - simpl. tauto.
  - change (save_all t ((o, c) :: saves))
      with (save_all (save_call o t c) saves).
    rewrite IH. unfold committed. destruct o; simpl.
    + rewrite urls_insert. intuition.
    + tauto.
Qed.

Lemma filter_partition_length {X : Type} (f : X -> bool) (l : list X) :
  length (filter f l) + length (filter (fun x => negb (f x)) l) = length l.
Proof.
  induction l as [|x l IH]; simpl; [reflexivity|].
  destruct (f x); simpl; lia.
Qed.

Lemma rows_with_url_unique (u : string) (t : Table) :
  url_unique t ->
  length (rows_with_url u t) = if existsb (has_url u) t then 1 else 0.
Proof.
  unfold url_unique, rows_with_url.
  induction t as [|r t IH]; simpl; intros H; [reflexivity|].
  inversion H as [|x l Hnin Hnd]; subst. specialize (IH Hnd).
  destruct (has_url u r) eqn:E; simpl; [|exact IH].
  destruct (existsb (has_url u) t) eqn:Ex; [|rewrite IH; reflexivity].
  exfalso. apply Hnin. apply existsb_exists in Ex.
  destruct Ex as [r' [Hin Hu]]. unfold has_url in E, Hu.
  apply String.eqb_eq in E, Hu. apply in_map_iff. exists r'.
  split; [congruence | exact Hin].
Qed.

Lemma max_id_bound (t : Table) (r : Row) :
  In r t -> (id r <= max_id t)%Z.
Proof.
  induction t as [|x t IH]; simpl; [contradiction|].
  intros [-> | Hin]; [lia|]. specialize (IH Hin). lia.
Qed.

Lemma ids_increasing_filter (f : Row -> bool) (t : Table) :
  ids_increasing t -> ids_increasing (filter f t).
Proof.
  induction t as [|r t IH]; simpl; [trivial|].
  intros [Hpos [Hlt Hrest]]. destruct (f r); simpl; [|auto].
  split; [exact Hpos|]. split; [|auto].
  intros r' Hin. apply Hlt. apply filter_In in Hin. tauto.
Qed.

Lemma ids_increasing_snoc (t : Table) (r : Row) :
  ids_increasing t -> (0 < id r)%Z ->
  (forall r', In r' t -> (id r' < id r)%Z) ->
  ids_increasing (t ++ [r]).
Proof.
  induction t as [|x t IH]; simpl; intros H Hpos Hlt.
  - repeat split; [exact Hpos | contradiction].
  - destruct H as [Hx [Hxlt Hrest]]. split; [exact Hx|]. split.
    + intros r' Hin. apply in_app_iff in Hin.
      destruct Hin as [Hin | [<- | []]]; [auto|].
      apply Hlt. left. reflexivity.
    + apply IH; auto.
Qed.

Lemma max_id_nonneg (t : Table) : (0 <= max_id t)%Z.
Proof. induction t as [|x t IH]; simpl; lia. Qed.

Lemma ids_increasing_insert (t : Table) (c : EarningsCall) :
  ids_increasing t -> ids_increasing (insert_or_replace t c).
Proof.
  intros H. unfold insert_or_replace. apply ids_increasing_snoc.
  - apply ids_increasing_filter, H.
  - simpl. pose proof (max_id_nonneg t). lia.
  - intros r' Hin. apply filter_In in Hin. destruct Hin as [Hin _].
    simpl. pose proof (max_id_bound t r' Hin). lia.
Qed.

Lemma ids_increasing_NoDup (t : Table) :
  ids_increasing t -> NoDup (map id t).
Proof.
  induction t as [|r t IH]; simpl; [constructor|].
  intros [_ [Hlt Hrest]]. constructor; [|auto].
  intros Hin. apply in_map_iff in Hin. destruct Hin as [r' [Hid Hin]].
  specialize (Hlt r' Hin). lia.
Qed.

End StoreFacts.

Section GroupByMore.

Import Db.

Local Open Scope list_scope.

Lemma bump_positive (k : string) (g : list (string * nat)) :
  Forall (fun kn => 0 < snd kn) g ->
  Forall (fun kn => 0 < snd kn) (bump k g).
Proof.
  induction g as [|[k' n] g IH]; simpl; intros H.
  - constructor; [simpl; lia | constructor].
  - inversion H as [|x l Hx Hl]; subst.
    destruct (String.eqb k' k); constructor; simpl in *; auto; lia.
Qed.

Lemma group_by_ticker_positive (t : Table) :
  Forall (fun kn => 0 < snd kn) (group_by_ticker t).
Proof.
  induction t as [|r t IH] using rev_ind; [constructor|].
  rewrite group_by_ticker_snoc. apply bump_positive, IH.
Qed.

Lemma count_of_In (k : string) (n : nat) (g : list (string * nat)) :
  NoDup (map fst g) -> In (k, n) g -> count_of k g = n.
Proof.
  unfold count_of. induction g as [|[k' n'] g IH]; simpl;
    intros Hnd Hin; [contradiction|].
  inversion Hnd as [|x l Hnin Hnd']; subst.
  destruct Hin as [Heq | Hin].
  - injection Heq as -> ->. rewrite String.eqb_refl. reflexivity.
  - destruct (String.eqb_spec k' k) as [-> | Hne]; [|auto].
    exfalso. apply Hnin. apply in_map_iff. exists (k, n). auto.
Qed.

Lemma count_of_absent (k : string) (g : list (string * nat)) :
  ~ In k (map fst g) -> count_of k g = 0.
Proof.
  unfold count_of. induction g as [|[k' n'] g IH]; simpl; intros H;
    [reflexivity|].
  destruct (String.eqb_spec k' k) as [-> | Hne]; [tauto|].
  apply IH. tauto.
Qed.

Lemma rows_of_ticker_positive (k : string) (t : Table) :
  0 < rows_of_ticker k t <-> exists r, In r t /\ ticker (data r) = k.
Proof.
  unfold rows_of_ticker. split.
  - intros H.
    destruct (filter (fun r => String.eqb (ticker (data r)) k) t)
      as [|r l] eqn:E; [simpl in H; lia|].
    assert (In r (filter (fun r => String.eqb (ticker (data r)) k) t)) as Hin
      by (rewrite E; left; reflexivity).
    apply filter_In in Hin. destruct Hin as [Hin Hk].
    exists r. split; [exact Hin|]. apply String.eqb_eq. exact Hk.
  - intros [r [Hin Hk]].
    assert (In r (filter (fun r => String.eqb (ticker (data r)) k) t)) as Hf
      by (apply filter_In; split; [exact Hin|];
          apply String.eqb_eq; exact Hk).
    destruct (filter (fun r => String.eqb (ticker (data r)) k) t);
      [contradiction | simpl; lia].
Qed.

End GroupByMore.

(** X10.  A save touches the rows of its own url only: whatever its
    outcome, the rows stored under any other url are what they were. *)
Theorem save_leaves_other_urls_alone :
  forall (o : Db.sqlite_outcome) (t : Db.Table) (c : EarningsCall)
         (u : string),
    u <> url c ->
    Db.rows_with_url u (Db.save_call o t c) = Db.rows_with_url u t.
Proof.
  intros o t c u H. apply rows_with_url_save_other. exact H.
Qed.

Lemma save_leaves_other_urls_alone_witness :
  let c1 := Fixture.call "https://ir.example.com/q1" "Q1 Webcast" in
  let c2 := Fixture.call "https://ir.example.com/q2" "Q2 Webcast" in
  Db.rows_with_url "https://ir.example.com/q1"
    (Db.save_call Db.Committed
       (Db.save_call Db.Committed (Db.init_db None) c1) c2)
  = [ {| Db.id := 1; Db.data := c1 |} ].
Proof.
  intros c1 c2.
  rewrite (save_leaves_other_urls_alone Db.Committed
             (Db.save_call Db.Committed (Db.init_db None) c1) c2
             "https://ir.example.com/q1");
    [reflexivity | discriminate].
Defined.

(** X11.  In a table where no two rows share a url, a committed save
    replaces when the url is already stored, leaving the row count as it
    was, and inserts when it is not, adding one. *)
Theorem save_replaces_or_inserts :
  forall (t : Db.Table) (c : EarningsCall),
    url_unique t ->
    Db.total (Db.get_stats (Db.save_call Db.Committed t c))
    = if existsb (Db.has_url (url c)) t
      then Db.total (Db.get_stats t)
      else S (Db.total (Db.get_stats t)).
Proof.
  intros t c H. simpl. rewrite length_insert.
  pose proof (filter_partition_length (Db.has_url (url c)) t) as Hp.
  pose proof (rows_with_url_unique (url c) t H) as Hu.
  unfold Db.rows_with_url in Hu.
  destruct (existsb (Db.has_url (url c)) t); lia.
Qed.

Lemma save_replaces_or_inserts_witness :
  let c1 := Fixture.call "https://ir.example.com/q1" "Q1 Webcast" in
  let c2 := Fixture.call "https://ir.example.com/q2" "Q2 Webcast" in
  let t := Db.save_call Db.Committed (Db.init_db None) c1 in
  Db.total (Db.get_stats (Db.save_call Db.Committed t c1)) = 1 /\
  Db.total (Db.get_stats (Db.save_call Db.Committed t c2)) = 2.
Proof.
  intros c1 c2 t.
  assert (url_unique t) as H
    by (repeat constructor; simpl; tauto).
  split.
  - exact (save_replaces_or_inserts t c1 H).
  - exact (save_replaces_or_inserts t c2 H).
Defined.

(** X12.  Over any run of saves, the last committed save under a url is
    what the table holds for it: if no committed save after it has its
    url, the table holds exactly one row for that url and the row is that
    record.  Failed saves in between change nothing. *)
Theorem last_committed_save_is_stored :
  forall (t : Db.Table) pre (c : EarningsCall) post,
    (forall c', In c' (committed post) -> url c' <> url c) ->
    exists i,
      Db.rows_with_url (url c)
        (Db.save_all t (pre ++ (Db.Committed, c) :: post)%list)
      = [ {| Db.id := i; Db.data := c |} ].
Proof.
  intros t pre c post H.
  rewrite save_all_app.
  change (Db.save_all (Db.save_all t pre) ((Db.Committed, c) :: post))
    with (Db.save_all (Db.insert_or_replace (Db.save_all t pre) c) post).
  rewrite rows_with_url_save_all_other by exact H.
  eexists. apply rows_with_url_insert.
Qed.

Lemma last_committed_save_is_stored_witness :
  let c1 := Fixture.call "https://ir.example.com/q1" "Q1 Webcast" in
  let c2 := Fixture.call "https://ir.example.com/q1" "Q1 Webcast (replay)" in
  let c3 := Fixture.call "https://ir.example.com/q1" "Q1 Webcast (lost)" in
  let c4 := Fixture.call "https://ir.example.com/q2" "Q2 Webcast" in
  exists i,
    Db.rows_with_url "https://ir.example.com/q1"
      (Db.save_all (Db.init_db None)
         [ (Db.Committed, c1); (Db.Committed, c2);
           (Db.SqliteError, c3); (Db.Committed, c4) ])
    = [ {| Db.id := i; Db.data := c2 |} ].
Proof.
  intros c1 c2 c3 c4.
  apply (last_committed_save_is_stored (Db.init_db None)
           [ (Db.Committed, c1) ] c2
           [ (Db.SqliteError, c3); (Db.Committed, c4) ]).
  intros c' [<- | []]. discriminate.
Defined.

(** X13.  Starting from an empty database, the total of the statistics
    after any run of saves is the number of distinct urls among the saves
    that were committed. *)
Theorem total_counts_distinct_urls :
  forall saves,
    Db.total (Db.get_stats (Db.save_all (Db.init_db None) saves))
    = List.length (nodup string_dec (map url (committed saves))).
Proof.
  intros saves. simpl.
  rewrite <- (length_map (fun r => url (Db.data r))).
  apply Permutation_length.
  apply NoDup_Permutation.
  - apply (url_unique_save_all [] saves). constructor.
  - apply NoDup_nodup.
  - intros u. rewrite nodup_In, urls_save_all. simpl. tauto.
Qed.

(** X14.  The per-ticker part of the statistics is a grouping of the
    table: every ticker that has a row appears exactly once, no other
    ticker appears, and the count beside a ticker is the number of rows of
    that ticker. *)
Theorem by_company_groups_the_table :
  forall (t : Db.Table),
    let g := Db.by_company (Db.get_stats t) in
    NoDup (map fst g) /\
    (forall k n, In (k, n) g -> n = rows_of_ticker k t /\ 0 < n) /\
    (forall k, In k (map fst g) <->
               exists r, In r t /\ ticker (Db.data r) = k).
Proof.
  intros t g. subst g. simpl.
  destruct (group_by_ticker_spec t) as [Hnd Hc].
  pose proof (group_by_ticker_positive t) as Hpos.
  assert (forall k n, In (k, n) (Db.group_by_ticker t) ->
                      n = rows_of_ticker k t /\ 0 < n) as Hin.
  { intros k n H. split.
    - rewrite <- Hc. symmetry. apply count_of_In; assumption.
    - rewrite Forall_forall in Hpos. exact (Hpos (k, n) H). }
  split; [exact Hnd|]. split; [exact Hin|].
  intros k. rewrite <- rows_of_ticker_positive. split.
  - intros H. apply in_map_iff in H. destruct H as [[k' n] [Hk H]].
    simpl in Hk. subst k'. destruct (Hin k n H) as [<- Hn]. exact Hn.
  - intros H.
    destruct (in_dec string_dec k (map fst (Db.group_by_ticker t)))
      as [Hy | Hn]; [exact Hy|].
    apply count_of_absent in Hn. rewrite Hc in Hn. lia.
Qed.

(** X15.  Saving the same record twice stores what saving it once stores:
    the data columns of the table, row by row, are the same (the rowid of
    the record's row is a new one). *)
Theorem saving_twice_is_saving_once :
  forall (t : Db.Table) (c : EarningsCall),
    map Db.data
      (Db.save_call Db.Committed (Db.save_call Db.Committed t c) c)
    = map Db.data (Db.save_call Db.Committed t c).
Proof.
  intros t c. simpl. unfold Db.insert_or_replace at 1 3.
  rewrite !map_app. f_equal.
  unfold Db.insert_or_replace. rewrite filter_app, filter_other_idem.
  simpl. rewrite has_url_refl. simpl. rewrite app_nil_r. reflexivity.
Qed.

(** X16.  The surrogate key stays a key: in a table built by saves from an
    empty database the rowids are positive, grow along the table, and no
    two rows share one. *)
Theorem rowids_stay_distinct :
  forall saves,
    let t := Db.save_all (Db.init_db None) saves in
    ids_increasing t /\ NoDup (map Db.id t).
Proof.
  intros saves t. subst t.
  assert (forall t0, ids_increasing t0 ->
                     ids_increasing (Db.save_all t0 saves)) as H.
  { induction saves as [|[o c] saves IH]; intros t0 H0; [exact H0|].
    change (Db.save_all t0 ((o, c) :: saves))
      with (Db.save_all (Db.save_call o t0 c) saves).
    apply IH. destruct o; simpl; [apply ids_increasing_insert|]; exact H0. }
  specialize (H (Db.init_db None) I).
  split; [exact H | apply ids_increasing_NoDup, H].
Qed.

(* ===================================================================== *)
(** ** The crawl of a company, and the run *)
(* ===================================================================== *)

Section CompanyFacts.

Variable resolve : string -> string -> option string.
Variable urlparse : string -> option ParseResult.
Variable find_all_a : string -> list (string * string).

Local Open Scope list_scope.

Lemma crawled_0 (p : Process) : crawled p (world p) 0 = p.
Proof. destruct p. unfold crawled. simpl. rewrite Z.add_0_r. reflexivity. Qed.

Lemma with_world_crawled (p : Process) (w : World) :
  with_world p w = crawled p w 0.
Proof. unfold with_world, crawled. rewrite Z.add_0_r. reflexivity. Qed.

(** The save loop hands every call to [save_call], in order, as long as
    the database opens; the first [save_call] for which it does not raises
    [OperationalError] out of the loop. *)
Lemma save_calls_cases calls p :
  (opens (sqlite p) (saves p) (length calls) /\
   save_calls calls p = (Ok tt, all_saved p calls))
  \/ (exists i, i < length calls /\
                sqlite p (saves p + i) = Unopenable /\
                fst (save_calls calls p) = Raised OperationalError).
Proof.
  revert p. induction calls as [|c calls IH]; intros p.
  - left. split; [intros i Hi; inversion Hi|].
    simpl. unfold retP, all_saved. destruct p. simpl.
    rewrite Nat.add_0_r. reflexivity.
  - cbn [save_calls]. unfold bindP, db_save_call.
    destruct (sqlite p (saves p)) as [o|] eqn:Hsq.
    + destruct (IH (saved p o c)) as [[Hop E] | [i [Hi [Hun E]]]].
      * left. split.
        -- intros [|i] Hi.
           ++ rewrite Nat.add_0_r, Hsq. discriminate.
           ++ replace (saves p + S i) with (S (saves p) + i) by lia.
              apply (Hop i). cbn [length] in Hi. lia.
        -- rewrite E. unfold all_saved.
           cbn [world table sqlite saves slept saved tagged length].
           rewrite Hsq. cbn [outcome_of].
           replace (S (saves p) + length calls)
             with (saves p + S (length calls)) by lia.
           reflexivity.
      * right. exists (S i). split; [cbn [length]; lia|].
        split.
        -- replace (saves p + S i) with (S (saves p) + i) by lia.
           exact Hun.
        -- destruct (save_calls calls (saved p o c)) as [[[]|e] p'];
             cbn [fst] in *; [discriminate E | exact E].
    + right. exists 0. split; [cbn [length]; lia|].
      split; [rewrite Nat.add_0_r; exact Hsq | reflexivity].
Qed.

(** One turn of the loop over the seed urls, by what the page scan and
    the frontier expansion do. *)
Lemma scrape_ir_url_step url tk co all p :
  scrape_ir_url resolve urlparse find_all_a url tk co all p
  = match _scrape_page resolve find_all_a url tk co (world p) with
    | (Raised _, w1) => (Ok all, crawled p w1 0)
    | (Ok calls, w1) =>
        match _find_event_pages resolve urlparse find_all_a url tk co w1 with
        | (Raised _, w2) => (Ok (all ++ calls), crawled p w2 0)
        | (Ok deeper, w2) => (Ok ((all ++ calls) ++ deeper), crawled p w2 1)
        end
    end.
Proof.
  unfold scrape_ir_url, try_exceptP, bindP, lift.
  destruct (_scrape_page resolve find_all_a url tk co (world p))
    as [[calls|e] w1]; cbn [fst snd].
  - cbn [world with_world].
    destruct (_find_event_pages resolve urlparse find_all_a url tk co w1)
      as [[deeper|e] w2]; cbn [fst snd].
    + reflexivity.
    + unfold retP. rewrite with_world_crawled. reflexivity.
  - unfold retP. rewrite with_world_crawled. reflexivity.
Qed.

(** A seed url whose request raises is passed over. *)
Lemma scrape_ir_url_seed_raises url tk co all p e :
  server (world p) (length (requests (world p))) url 10%Z = Failure e ->
  scrape_ir_url resolve urlparse find_all_a url tk co all p
  = (Ok all, crawled p (log_requests (world p) [(url, 10%Z)]) 0).
Proof.
  intros H. rewrite scrape_ir_url_step.
  unfold _scrape_page, bind, session_get. rewrite H. reflexivity.
Qed.

(** One turn of the loop returns; it leaves the server alone and sleeps
    a second at most. *)
Lemma scrape_ir_url_run url tk co all p :
  exists new w' secs,
    scrape_ir_url resolve urlparse find_all_a url tk co all p
      = (Ok (all ++ new), crawled p w' secs) /\
    (0 <= secs <= 1)%Z /\ server w' = server (world p).
Proof.
  rewrite scrape_ir_url_step.
  destruct (scrape_page_run resolve find_all_a url tk co (world p))
    as [Hs1 _].
  destruct (_scrape_page resolve find_all_a url tk co (world p))
    as [[calls|e] w1]; cbn [snd] in Hs1.
  - pose proof (find_event_pages_run resolve urlparse find_all_a
                  url tk co w1) as Hf.
    destruct (urlparse url) as [parsed|].
    + destruct Hf as [deeper [w2 [scanned [E [Hs2 _]]]]]. rewrite E.
      exists (calls ++ deeper), w2, 1%Z. rewrite app_assoc.
      split; [reflexivity|]. split; [lia | congruence].
    + rewrite Hf. exists calls, w1, 0%Z.
      split; [reflexivity|]. split; [lia | exact Hs1].
  - exists [], w1, 0%Z. rewrite app_nil_r.
    split; [reflexivity|]. split; [lia | exact Hs1].
Qed.

(** The loop over the seed urls returns; it leaves the table and the save
    count alone, and sleeps a second at most for each seed url. *)
Lemma scrape_ir_urls_run ir_urls tk co all p :
  exists new w' secs,
    scrape_ir_urls resolve urlparse find_all_a ir_urls tk co all p
      = (Ok (all ++ new), crawled p w' secs) /\
    (0 <= secs <= Z.of_nat (length ir_urls))%Z /\
    server w' = server (world p).
Proof.
  revert all p. induction ir_urls as [|url rest IH]; intros all p.
  - exists [], (world p), 0%Z. simpl. unfold retP.
    rewrite app_nil_r, crawled_0. repeat split; lia.
  - cbn [scrape_ir_urls]. unfold bindP.
    destruct (scrape_ir_url_run url tk co all p)
      as [new1 [w1 [s1 [E1 [Hb1 Hs1]]]]].
    rewrite E1.
    destruct (IH (all ++ new1) (crawled p w1 s1))
      as [new2 [w2 [s2 [E2 [Hb2 Hs2]]]]].
    rewrite E2. exists (new1 ++ new2), w2, (s1 + s2)%Z.
    split.
    + unfold crawled. cbn [world table sqlite saves slept].
      rewrite !app_assoc, Z.add_assoc. reflexivity.
    + split; [cbn [length]; lia|]. simpl in Hs2. congruence.
Qed.

(** [scrape_company]: the crawl returns the calls it found; the save loop
    then hands each of them to [save_call], unless the database cannot be
    opened, in which case [OperationalError] leaves [scrape_company]. *)
Lemma scrape_company_run tk co ir_urls p :
  exists calls w' secs,
    (0 <= secs <= Z.of_nat (length ir_urls))%Z /\
    server w' = server (world p) /\
    ((opens (sqlite p) (saves p) (length calls) /\
      scrape_company resolve urlparse find_all_a tk co ir_urls p
      = (Ok calls,
         {| world := w';
            table := Db.save_all (table p)
                       (tagged (sqlite p) (saves p) calls);
            sqlite := sqlite p;
            saves := saves p + length calls;
            slept := (slept p + secs)%Z |}))
     \/ (exists i, sqlite p (saves p + i) = Unopenable /\
                   fst (scrape_company resolve urlparse find_all_a tk co
                          ir_urls p) = Raised OperationalError)).
Proof.
  destruct (scrape_ir_urls_run ir_urls tk co [] p)
    as [calls [w' [secs [E [Hb Hs]]]]].
  exists calls, w', secs. split; [exact Hb|]. split; [exact Hs|].
  unfold scrape_company, bindP. rewrite E. cbn [app].
  destruct (save_calls_cases calls (crawled p w' secs))
    as [[Hop Es] | [i [_ [Hun Es]]]].
  - left. split; [exact Hop|]. rewrite Es. reflexivity.
  - right. exists i. split; [exact Hun|].
    destruct (save_calls calls (crawled p w' secs)) as [[[]|e] p'];
      cbn [fst] in *; [discriminate Es|].
    injection Es as ->. reflexivity.
Qed.

(** What a [scrape_company] that returns has done. *)
Lemma scrape_company_ok tk co ir_urls p calls p' :
  scrape_company resolve urlparse find_all_a tk co ir_urls p
    = (Ok calls, p') ->
  table p' = Db.save_all (table p) (tagged (sqlite p) (saves p) calls) /\
  sqlite p' = sqlite p /\
  saves p' = saves p + length calls /\
  (slept p <= slept p' <= slept p + Z.of_nat (length ir_urls))%Z /\
  opens (sqlite p) (saves p) (length calls).
Proof.
  intros E.
  destruct (scrape_company_run tk co ir_urls p)
    as [calls0 [w' [secs [Hb [_ [[Hop E0] | [i [_ E0]]]]]]]].
  - rewrite E0 in E. injection E as <- <-.
    cbn [table sqlite saves slept].
    split; [reflexivity|]. split; [reflexivity|].
    split; [reflexivity|]. split; [lia | exact Hop].
  - rewrite E in E0. discriminate E0.
Qed.

End CompanyFacts.

Section RunFacts.

Variable resolve : string -> string -> option string.
Variable urlparse : string -> option ParseResult.
Variable find_all_a : string -> list (string * string).

Local Open Scope list_scope.

Lemma length_tagged sq n calls : length (tagged sq n calls) = length calls.
Proof.
  revert n. induction calls as [|c calls IH]; intros n; simpl;
    [reflexivity | rewrite IH; reflexivity].
Qed.

Lemma tagged_app sq n l1 l2 :
  tagged sq n (l1 ++ l2) = tagged sq n l1 ++ tagged sq (n + length l1) l2.
Proof.
  revert n. induction l1 as [|c l1 IH]; intros n; simpl.
  - rewrite Nat.add_0_r. reflexivity.
  - rewrite IH. replace (S n + length l1) with (n + S (length l1)) by lia.
    reflexivity.
Qed.

Lemma committed_tagged sq n calls :
  (forall k, sq k = Opened Db.Committed) ->
  committed (tagged sq n calls) = calls.
Proof.
  intros H. revert n. unfold committed.
  induction calls as [|c calls IH]; intros n; simpl; [reflexivity|].
  rewrite H. simpl. rewrite IH. reflexivity.
Qed.

Lemma length_save_all (t : Db.Table) saves :
  length (Db.save_all t saves) <= length t + length saves.
Proof.
  revert t. induction saves as [|[o c] saves IH]; intros t; simpl; [lia|].
  change (fold_left _ saves (Db.save_call o t c))
    with (Db.save_all (Db.save_call o t c) saves).
  specialize (IH (Db.save_call o t c)).
  assert (length (Db.save_call o t c) <= S (length t)) as H.
  { destruct o; simpl; [|lia]. rewrite length_insert.
    pose proof (filter_length_le
                  (fun r => negb (Db.has_url (url c) r)) t). lia. }
  lia.
Qed.

Lemma ids_increasing_save_all (t : Db.Table) saves :
  ids_increasing t -> ids_increasing (Db.save_all t saves).
Proof.
  revert t. induction saves as [|[o c] saves IH]; intros t H; [exact H|].
  change (Db.save_all t ((o, c) :: saves))
    with (Db.save_all (Db.save_call o t c) saves).
  apply IH. destruct o; simpl; [apply ids_increasing_insert|]; exact H.
Qed.

(** When no request gets through, the loop over the seed urls asks for
    each seed page once and finds nothing. *)
Lemma scrape_ir_urls_offline ir_urls tk co all p :
  (forall n u t, exists e, server (world p) n u t = Failure e) ->
  scrape_ir_urls resolve urlparse find_all_a ir_urls tk co all p
  = (Ok all,
     crawled p (log_requests (world p) (map (fun u => (u, 10%Z)) ir_urls))
       0).
Proof.
  revert p. induction ir_urls as [|url rest IH]; intros p H.
  - simpl. unfold retP, crawled, log_requests.
    rewrite app_nil_r, Z.add_0_r. destruct p as [[] ? ? ? ?]. reflexivity.
  - cbn [scrape_ir_urls]. unfold bindP.
    destruct (H (length (requests (world p))) url 10%Z) as [e He].
    rewrite (scrape_ir_url_seed_raises resolve urlparse find_all_a
               url tk co all p e He).
    rewrite IH by exact H.
    unfold crawled. cbn [world table sqlite saves slept map].
    rewrite log_requests_app, Z.add_0_r. reflexivity.
Qed.

(** What a loop over the companies that returns has done: it returns the
    number of calls found; the table has grown by that number at most and
    keeps its urls distinct; the process has slept a second at most for
    each seed url. *)
Lemma scrape_companies_ok cs k p n' p' :
  scrape_companies resolve urlparse find_all_a cs k p = (Ok n', p') ->
  k <= n' /\
  length (table p') <= length (table p) + (n' - k) /\
  (url_unique (table p) -> url_unique (table p')) /\
  (ids_increasing (table p) -> ids_increasing (table p')) /\
  (slept p <= slept p'
   <= slept p + Z.of_nat (length (flat_map co_urls cs)))%Z.
Proof.
  revert k p. induction cs as [|c cs IH]; intros k p E.
  - simpl in E. unfold retP in E. injection E as <- <-.
    simpl. repeat split; auto; lia.
  - cbn [scrape_companies] in E. unfold bindP in E.
    destruct (scrape_company resolve urlparse find_all_a
                (co_ticker c) (co_name c) (co_urls c) p)
      as [[calls|e] p1] eqn:E1; [|discriminate E].
    destruct (scrape_company_ok resolve urlparse find_all_a _ _ _ _ _ _ E1)
      as [Ht [_ [_ [Hs1 _]]]].
    destruct (IH _ _ E) as [Hk [Hl [Hu [Hi Hs]]]].
    pose proof (length_save_all (table p)
                  (tagged (sqlite p) (saves p) calls)) as Hle.
    rewrite length_tagged, <- Ht in Hle.
    split; [lia|]. split; [lia|].
    split; [|split].
    + intros H. apply Hu. rewrite Ht. apply url_unique_save_all. exact H.
    + intros H. apply Hi. rewrite Ht. apply ids_increasing_save_all.
      exact H.
    + cbn [flat_map]. rewrite length_app. lia.
Qed.

(** The loop over the companies returns when the database opens for every
    [save_call]. *)
Lemma scrape_companies_returns cs k p :
  (forall n, sqlite p n <> Unopenable) ->
  exists n' p',
    scrape_companies resolve urlparse find_all_a cs k p = (Ok n', p').
Proof.
  revert k p. induction cs as [|c cs IH]; intros k p H.
  - exists k, p. reflexivity.
  - cbn [scrape_companies]. unfold bindP.
    destruct (scrape_company_run resolve urlparse find_all_a
                (co_ticker c) (co_name c) (co_urls c) p)
      as [calls [w' [secs [_ [_ [[_ E] | [i [Hun _]]]]]]]].
    + rewrite E. apply IH. exact H.
    + exfalso. exact (H _ Hun).
Qed.

End RunFacts.



(** X18.  [scrape_company] raises only when the database cannot be opened
    for a save, and then with [OperationalError]; when the database opens
    for every save it returns, whatever the network does and whatever the
    pages hold.  When it returns, it has handed every call it returns to
    [save_call], once and in the order of the list, and has slept one
    second at most for each seed url. *)
Theorem company_crawl_saves_what_it_returns :
  forall resolve urlparse find_all_a tk co ir_urls p,
    ((forall n, sqlite p n <> Unopenable) ->
     exists calls p',
       scrape_company resolve urlparse find_all_a tk co ir_urls p
         = (Ok calls, p')) /\
    (forall e,
        fst (scrape_company resolve urlparse find_all_a tk co ir_urls p)
          = Raised e ->
        e = OperationalError /\ exists n, sqlite p n = Unopenable) /\
    (forall calls p',
        scrape_company resolve urlparse find_all_a tk co ir_urls p
          = (Ok calls, p') ->
        table p'
          = Db.save_all (table p) (tagged (sqlite p) (saves p) calls) /\
        saves p' = saves p + List.length calls /\
        (slept p <= slept p'
         <= slept p + Z.of_nat (List.length ir_urls))%Z).
Proof.
  intros resolve urlparse find_all_a tk co ir_urls p.
  refine (conj _ (conj _ _)).
  - intros H.
    destruct (scrape_company_run resolve urlparse find_all_a tk co ir_urls p)
      as [calls [w' [secs [_ [_ [[_ E] | [i [Hun _]]]]]]]].
    + eexists. eexists. exact E.
    + exfalso. exact (H _ Hun).
  - intros e E.
    destruct (scrape_company_run resolve urlparse find_all_a tk co ir_urls p)
      as [calls [w' [secs [_ [_ [[_ E0] | [i [Hun E0]]]]]]]].
    + rewrite E0 in E. discriminate E.
    + rewrite E0 in E. injection E as <-.
      split; [reflexivity|]. eexists. exact Hun.
  - intros calls p' E.
    destruct (scrape_company_ok resolve urlparse find_all_a _ _ _ _ _ _ E)
      as [Ht [_ [Hs [Hb _]]]].
    split; [exact Ht|]. split; assumption.
Qed.

Lemma company_crawl_saves_what_it_returns_witness :
  exists calls p',
    scrape_company Fixture.resolve Fixture.urlparse Fixture.bad_anchor
      "EX" "Example Corp" [ "https://ir.example.com/" ]
      (Fixture.first_run Fixture.online) = (Ok calls, p').
Proof.
  apply (proj1 (company_crawl_saves_what_it_returns Fixture.resolve
                  Fixture.urlparse Fixture.bad_anchor "EX" "Example Corp"
                  [ "https://ir.example.com/" ]
                  (Fixture.first_run Fixture.online))).
  intros n. discriminate.
Defined.

(** X19.  With the network down (every request raises), [scrape_company]
    returns the empty list: it has asked for each seed page once, in
    order, has probed no candidate, has not slept, and has left the
    database as it was. *)
Theorem company_crawl_offline :
  forall resolve urlparse find_all_a tk co ir_urls p,
    (forall n u t, exists e, server (world p) n u t = Failure e) ->
    exists p',
      scrape_company resolve urlparse find_all_a tk co ir_urls p
        = (Ok [], p') /\
      requests (world p')
        = (requests (world p) ++ map (fun u => (u, 10%Z)) ir_urls)%list /\
      table p' = table p /\ saves p' = saves p /\ slept p' = slept p.
Proof.
  intros resolve urlparse find_all_a tk co ir_urls p H.
  unfold scrape_company, bindP.
  rewrite (scrape_ir_urls_offline resolve urlparse find_all_a
             ir_urls tk co [] p H).
  cbn [save_calls]. unfold retP. eexists. split; [reflexivity|].
  unfold crawled. cbn [world table saves slept requests log_requests].
  repeat split. lia.
Qed.

Lemma company_crawl_offline_witness :
  exists p',
    scrape_company Fixture.resolve Fixture.urlparse Fixture.four_anchors
      "EX" "Example Corp"
      [ "https://ir.example.com/"; "https://ir.example.com/events" ]
      (Fixture.first_run Fixture.offline) = (Ok [], p') /\
    requests (world p')
      = [ ("https://ir.example.com/", 10%Z);
          ("https://ir.example.com/events", 10%Z) ] /\
    table p' = [] /\ slept p' = 0%Z.
Proof.
  destruct (company_crawl_offline Fixture.resolve Fixture.urlparse
              Fixture.four_anchors "EX" "Example Corp"
              [ "https://ir.example.com/"; "https://ir.example.com/events" ]
              (Fixture.first_run Fixture.offline)
              (fun _ _ _ => ex_intro _ ConnectionError eq_refl))
    as [p' [E [Hr [Ht [_ Hs]]]]].
  exists p'. split; [exact E|]. split; [exact Hr|].
  split; [exact Ht | exact Hs].
Defined.

(** X20.  When every save is committed, the table after [scrape_company]
    holds, for each url among the calls returned, exactly one row, and the
    row is the last of the returned calls with that url: a link found both
    on a seed page and on an event page is stored once, as found last. *)
Theorem company_crawl_stores_last_call_per_url :
  forall resolve urlparse find_all_a tk co ir_urls p,
    (forall n, sqlite p n = Opened Db.Committed) ->
    exists calls p',
      scrape_company resolve urlparse find_all_a tk co ir_urls p
        = (Ok calls, p') /\
      forall pre c post,
        calls = (pre ++ c :: post)%list ->
        (forall c', In c' post -> url c' <> url c) ->
        exists i,
          Db.rows_with_url (url c) (table p')
          = [ {| Db.id := i; Db.data := c |} ].
Proof.
  intros resolve urlparse find_all_a tk co ir_urls p Hsq.
  destruct (scrape_company_run resolve urlparse find_all_a tk co ir_urls p)
    as [calls [w' [secs [_ [_ [[_ E] | [i [Hun _]]]]]]]];
    [|rewrite Hsq in Hun; discriminate Hun].
  eexists. eexists. split; [exact E|].
  cbn [table]. intros pre c post -> Hpost.
  rewrite tagged_app, save_all_app. cbn [tagged].
  rewrite Hsq. cbn [outcome_of].
  match goal with
  | |- context [Db.save_all ?t0 ((Db.Committed, c) :: ?rest)] =>
      change (Db.save_all t0 ((Db.Committed, c) :: rest))
        with (Db.save_all (Db.insert_or_replace t0 c) rest)
  end.
  rewrite rows_with_url_save_all_other.
  - eexists. apply rows_with_url_insert.
  - rewrite committed_tagged by exact Hsq. exact Hpost.
Qed.

Lemma company_crawl_stores_last_call_per_url_witness :
  exists calls p',
    scrape_company Fixture.resolve Fixture.urlparse Fixture.four_anchors
      "EX" "Example Corp" [ "https://ir.example.com/" ]
      (Fixture.first_run Fixture.online) = (Ok calls, p') /\
    List.length calls = 18 /\
    map (fun r => url (Db.data r)) (table p')
    = [ "https://ir.example.com/agm"; "https://ir.example.com/q1.mp3" ].
Proof.
  destruct (company_crawl_stores_last_call_per_url Fixture.resolve
              Fixture.urlparse Fixture.four_anchors "EX" "Example Corp"
              [ "https://ir.example.com/" ]
              (Fixture.first_run Fixture.online) (fun _ => eq_refl))
    as [calls [p' [E _]]].
  exists calls, p'. split; [exact E|].
  vm_compute in E. injection E as <- <-. split; reflexivity.
Defined.

(** X21.  [main] returns when the database can be opened at every access
    and the export file can be written.  Whenever it returns, the total it
    reports is the number of objects exported, which are the rows of the
    table, and is at most the number of rows the database held before the
    run plus the number of calls found; and the run has slept eight seconds
    at most, one for each seed url of the four companies. *)
Theorem run_total_is_bounded_by_what_was_found :
  forall resolve urlparse find_all_a on_disk w sq disk,
    (db_created disk = true -> stats_read disk = true ->
     rows_read disk = true -> file_written disk = true ->
     (forall n, sq n <> Unopenable) ->
     exists res p',
       main resolve urlparse find_all_a on_disk w sq disk = (Ok res, p')) /\
    (forall res p',
        main resolve urlparse find_all_a on_disk w sq disk = (Ok res, p') ->
        export_data res = map Db.data (table p') /\
        List.length (export_data res) = Db.total (stats res) /\
        Db.total (stats res)
          <= List.length (Db.init_db on_disk) + total_found res /\
        (0 <= slept p' <= 8)%Z).
Proof.
  intros resolve urlparse find_all_a on_disk w sq disk. split.
  - intros H1 H2 H3 H4 Hsq.
    unfold main, main_on, unless_raises, bindP. rewrite H1, H2, H3, H4.
    destruct (scrape_companies_returns resolve urlparse find_all_a
                companies 0 (start on_disk w sq) Hsq) as [n [p' E]].
    rewrite E. eexists. eexists. reflexivity.
  - intros res p' E.
    unfold main, main_on, unless_raises, bindP in E.
    destruct (db_created disk); [|discriminate E].
    destruct (scrape_companies resolve urlparse find_all_a companies 0
                (start on_disk w sq)) as [[n|e] p1] eqn:E1;
      [|discriminate E].
    destruct (stats_read disk); [|discriminate E].
    destruct (rows_read disk); [|discriminate E].
    destruct (file_written disk); [|discriminate E].
    unfold retP in E. injection E as <- <-.
    destruct (scrape_companies_ok resolve urlparse find_all_a _ _ _ _ _ E1)
      as [_ [Hl [_ [_ Hs]]]].
    cbn [export_data stats total_found Db.total Db.get_stats table start]
      in *.
    split; [reflexivity|]. split; [apply length_map|].
    split; [lia|].
    cbn [slept start] in Hs. simpl in Hs. lia.
Qed.

Lemma run_total_is_bounded_by_what_was_found_witness :
  exists res p',
    main Fixture.resolve Fixture.urlparse Fixture.four_anchors None
      Fixture.online (fun _ => Opened Db.Committed) Fixture.healthy
    = (Ok res, p').
Proof.
  apply (proj1 (run_total_is_bounded_by_what_was_found Fixture.resolve
                  Fixture.urlparse Fixture.four_anchors None Fixture.online
                  (fun _ => Opened Db.Committed) Fixture.healthy)
           eq_refl eq_refl eq_refl eq_refl).
  intros n. discriminate.
Defined.

(** X22.  If the database [main] starts from has no two rows under one
    url, as the schema demands, then whenever [main] returns neither has
    the export: no url occurs twice in the objects written out, and the
    rowids behind them are still distinct when they were increasing at the
    start. *)
Theorem export_has_no_url_twice :
  forall resolve urlparse find_all_a on_disk w sq disk res p',
    url_unique (Db.init_db on_disk) ->
    main resolve urlparse find_all_a on_disk w sq disk = (Ok res, p') ->
    NoDup (map url (export_data res)) /\
    (ids_increasing (Db.init_db on_disk) -> NoDup (map Db.id (table p'))).
Proof.
  intros resolve urlparse find_all_a on_disk w sq disk res p' Hu E.
  unfold main, main_on, unless_raises, bindP in E.
  destruct (db_created disk); [|discriminate E].
  destruct (scrape_companies resolve urlparse find_all_a companies 0
              (start on_disk w sq)) as [[n|e] p1] eqn:E1;
    [|discriminate E].
  destruct (stats_read disk); [|discriminate E].
  destruct (rows_read disk); [|discriminate E].
  destruct (file_written disk); [|discriminate E].
  unfold retP in E. injection E as <- <-.
  destruct (scrape_companies_ok resolve urlparse find_all_a _ _ _ _ _ E1)
    as [_ [_ [Hun [Hid _]]]].
  cbn [export_data table start] in *. split.
  - rewrite map_map. exact (Hun Hu).
  - intros H. apply ids_increasing_NoDup, Hid, H.
Qed.

Lemma export_has_no_url_twice_witness :
  NoDup (map url
           match fst (main Fixture.resolve Fixture.urlparse
                        Fixture.four_anchors None Fixture.online
                        (fun _ => Opened Db.Committed) Fixture.healthy) with
           | Ok res => export_data res
           | Raised _ => []
           end).
Proof.
  destruct (main Fixture.resolve Fixture.urlparse Fixture.four_anchors None
              Fixture.online (fun _ => Opened Db.Committed) Fixture.healthy)
    as [[res|e] p'] eqn:E; cbn [fst]; [|constructor].
  exact (proj1 (export_has_no_url_twice Fixture.resolve Fixture.urlparse
                  Fixture.four_anchors None Fixture.online
                  (fun _ => Opened Db.Committed) Fixture.healthy res p'
                  (NoDup_nil _) E)).
Defined.
